(** * Uniswap V3 tick / price / liquidity mathematics

    A shallow embedding of the numeric core of the n8n Uniswap node:

    - [constants/tickMath.ts]   (tick <-> price <-> sqrtPriceX96, tick snapping),
    - [utils/tickUtils.ts]      (range membership, tick validation),
    - [utils/liquidityUtils.ts] (liquidity <-> amounts, fee accrual).

    Conventions of the embedding.

    - A [JSBI] big integer is a [Z].  [JSBI.divide] truncates toward zero
      ([Z.quot]) and throws a [RangeError] on a zero divisor; [JSBI.BigInt]
      applied to a string throws a [SyntaxError] when the string is not an
      integer literal.  Thrown exceptions are the [Throw] case of [result].
    - A JavaScript [number] that holds a tick is an integer far inside the
      safe range (|tick| < 2^53), where [+], [-], [*], the comparisons and
      [%] are exact: such numbers are written as [Z] ([Number_rem] keeps the
      NaN of [x % 0]).  The only inexact operation on ticks is the quotient
      inside [Math.round(tick / tickSpacing)], read as the exact quotient;
      module [NumberModel] gives the same code on binary64 values so that
      the two readings can be compared on concrete inputs.
    - A JavaScript [number] that holds a price is a binary64 value, written
      as a [spec_float] of the standard library.  [Math.pow] and [Math.log]
      are implementation-approximated in ECMAScript except at the arguments
      the standard fixes; the approximated part is a parameter of section
      [Engine]. *)

From Stdlib Require Import ZArith Lia Bool List String Ascii.
From Stdlib Require Import Decimal DecimalString DecimalZ.
From Stdlib Require Import SpecFloat.
Import ListNotations.

Local Open Scope string_scope.
Local Open Scope Z_scope.

(** ** Exceptions *)

Inductive JsError : Type :=
| RangeError
| SyntaxError
| Error (message : string).

Inductive result (A : Type) : Type :=
| Ok (a : A)
| Throw (e : JsError).

Arguments Ok {A} a.
Arguments Throw {A} e.

Definition bind {A B : Type} (m : result A) (k : A -> result B) : result B :=
  match m with
  | Ok a => k a
  | Throw e => Throw e
  end.

Notation "x <- m ;; k" := (bind m (fun x => k))
  (at level 61, m at next level, right associativity).

(** ** The big-integer library *)

Module JSBI.

Definition digit_of_ascii (c : ascii) : option Z :=
  let n := Z.of_N (N_of_ascii c) in
  if (48 <=? n) && (n <=? 57) then Some (n - 48) else None.

(** Decimal digits, most significant first, accumulated into [acc]. *)
Fixpoint parse_digits (s : string) (acc : Z) : option Z :=
  match s with
  | EmptyString => Some acc
  | String c rest =>
      match digit_of_ascii c with
      | Some d => parse_digits rest (10 * acc + d)
      | None => None
      end
  end.

Definition parse_nonempty_digits (s : string) : option Z :=
  match s with
  | EmptyString => None
  | _ => parse_digits s 0
  end.

(** [JSBI.BigInt(arg)] for a string argument: the empty string is zero, an
    optional sign is followed by decimal digits, and any other character
    makes the library throw [SyntaxError('Cannot convert ... to a
    BigInt')].  The blank padding and the [0x]/[0o]/[0b] prefixes that
    the library also reads are left out: every statement below is about
    strings this function reads. *)
Definition BigInt (arg : string) : result Z :=
  match arg with
  | EmptyString => Ok 0
  | String "-" rest =>
      match parse_nonempty_digits rest with
      | Some v => Ok (- v)
      | None => Throw SyntaxError
      end
  | String "+" rest =>
      match parse_nonempty_digits rest with
      | Some v => Ok v
      | None => Throw SyntaxError
      end
  | _ =>
      match parse_digits arg 0 with
      | Some v => Ok v
      | None => Throw SyntaxError
      end
  end.

(** [x.toString()]: decimal digits, a leading [-] for negative values. *)
Definition toString (x : Z) : string := NilZero.string_of_int (Z.to_int x).

Definition multiply (x y : Z) : Z := x * y.
Definition subtract (x y : Z) : Z := x - y.
Definition lessThan (x y : Z) : bool := x <? y.
Definition lessThanOrEqual (x y : Z) : bool := x <=? y.

(** [JSBI.divide]: [RangeError('Division by zero')] on a zero divisor,
    otherwise the quotient rounded toward zero. *)
Definition divide (x y : Z) : result Z :=
  if y =? 0 then Throw RangeError else Ok (Z.quot x y).

(** [JSBI.exponentiate], only ever called here on the literals
    [(2, 96)], [(2, 192)] and [(2, 128)]. *)
Definition exponentiate (x y : Z) : Z := x ^ y.

Definition isNegativeString (s : string) : bool :=
  match s with
  | String "-" _ => true
  | _ => false
  end.

End JSBI.

(** ** constants/tickMath.ts: fixed-point constants *)

Definition Q96 : Z := JSBI.exponentiate 2 96.
Definition Q192 : Z := JSBI.exponentiate 2 192.

Definition MIN_TICK : Z := -887272.
Definition MAX_TICK : Z := 887272.

Definition MIN_SQRT_RATIO : Z := 4295128739.
Definition MAX_SQRT_RATIO : Z := 1461446703485210103287273052203988822378723970342.

(** ** utils/liquidityUtils.ts *)

Module LiquidityUtils.

Definition getLiquidityForAmount0 (sqrtPriceAX96 sqrtPriceBX96 amount0 : Z)
  : result Z :=
  intermediate <- JSBI.divide (JSBI.multiply sqrtPriceAX96 sqrtPriceBX96) Q96 ;;
  JSBI.divide (JSBI.multiply amount0 intermediate)
              (JSBI.subtract sqrtPriceBX96 sqrtPriceAX96).

Definition getLiquidityForAmount1 (sqrtPriceAX96 sqrtPriceBX96 amount1 : Z)
  : result Z :=
  JSBI.divide (JSBI.multiply amount1 Q96)
              (JSBI.subtract sqrtPriceBX96 sqrtPriceAX96).

Definition getAmount0ForLiquidity (sqrtPriceAX96 sqrtPriceBX96 liquidity : Z)
  : result Z :=
  let diff := JSBI.subtract sqrtPriceBX96 sqrtPriceAX96 in
  JSBI.divide (JSBI.multiply (JSBI.multiply liquidity diff) Q96)
              (JSBI.multiply sqrtPriceAX96 sqrtPriceBX96).

Definition getAmount1ForLiquidity (sqrtPriceAX96 sqrtPriceBX96 liquidity : Z)
  : result Z :=
  let diff := JSBI.subtract sqrtPriceBX96 sqrtPriceAX96 in
  JSBI.divide (JSBI.multiply liquidity diff) Q96.

Definition calculateLiquidityFromAmounts
  (sqrtPriceX96 sqrtPriceAX96 sqrtPriceBX96 amount0 amount1 : string)
  : result string :=
  sqrtPrice <- JSBI.BigInt sqrtPriceX96 ;;
  sqrtPriceA <- JSBI.BigInt sqrtPriceAX96 ;;
  sqrtPriceB <- JSBI.BigInt sqrtPriceBX96 ;;
  amt0 <- JSBI.BigInt amount0 ;;
  amt1 <- JSBI.BigInt amount1 ;;
  liquidity <-
    (if JSBI.lessThanOrEqual sqrtPrice sqrtPriceA then
       getLiquidityForAmount0 sqrtPriceA sqrtPriceB amt0
     else if JSBI.lessThan sqrtPrice sqrtPriceB then
       liquidity0 <- getLiquidityForAmount0 sqrtPrice sqrtPriceB amt0 ;;
       liquidity1 <- getLiquidityForAmount1 sqrtPriceA sqrtPrice amt1 ;;
       Ok (if JSBI.lessThan liquidity0 liquidity1 then liquidity0 else liquidity1)
     else
       getLiquidityForAmount1 sqrtPriceA sqrtPriceB amt1) ;;
  Ok (JSBI.toString liquidity).

Record TokenAmounts : Type := { amount0 : string; amount1 : string }.

Definition calculateAmountsFromLiquidity
  (sqrtPriceX96 sqrtPriceAX96 sqrtPriceBX96 liquidity : string)
  : result TokenAmounts :=
  sqrtPrice <- JSBI.BigInt sqrtPriceX96 ;;
  sqrtPriceA <- JSBI.BigInt sqrtPriceAX96 ;;
  sqrtPriceB <- JSBI.BigInt sqrtPriceBX96 ;;
  liq <- JSBI.BigInt liquidity ;;
  amounts <-
    (if JSBI.lessThanOrEqual sqrtPrice sqrtPriceA then
       a0 <- getAmount0ForLiquidity sqrtPriceA sqrtPriceB liq ;;
       Ok (a0, 0)
     else if JSBI.lessThan sqrtPrice sqrtPriceB then
       a0 <- getAmount0ForLiquidity sqrtPrice sqrtPriceB liq ;;
       a1 <- getAmount1ForLiquidity sqrtPriceA sqrtPrice liq ;;
       Ok (a0, a1)
     else
       a1 <- getAmount1ForLiquidity sqrtPriceA sqrtPriceB liq ;;
       Ok (0, a1)) ;;
  Ok {| amount0 := JSBI.toString (fst amounts);
        amount1 := JSBI.toString (snd amounts) |}.

Record Fees : Type := { fees0 : string; fees1 : string }.

Definition calculateFees
  (feeGrowthInside0X128 feeGrowthInside1X128 liquidity
     feeGrowthInside0LastX128 feeGrowthInside1LastX128 : string)
  : result Fees :=
  let Q128 := JSBI.exponentiate 2 128 in
  cur0 <- JSBI.BigInt feeGrowthInside0X128 ;;
  last0 <- JSBI.BigInt feeGrowthInside0LastX128 ;;
  let feeGrowth0 := JSBI.subtract cur0 last0 in
  cur1 <- JSBI.BigInt feeGrowthInside1X128 ;;
  last1 <- JSBI.BigInt feeGrowthInside1LastX128 ;;
  let feeGrowth1 := JSBI.subtract cur1 last1 in
  liq <- JSBI.BigInt liquidity ;;
  f0 <- JSBI.divide (JSBI.multiply feeGrowth0 liq) Q128 ;;
  f1 <- JSBI.divide (JSBI.multiply feeGrowth1 liq) Q128 ;;
  Ok {| fees0 := JSBI.toString f0; fees1 := JSBI.toString f1 |}.

End LiquidityUtils.

(** ** Numbers that hold ticks *)

(** [Math.round(a / b)] for integers [a] and [b <> 0]: the integer [k] with
    [k - 1/2 <= a/b < k + 1/2] (a tie goes toward +infinity), that is
    [floor(a/b + 1/2)]. *)
Definition Math_round_div (a b : Z) : Z := (2 * a + b) / (2 * b).

(** [a % b] on integral numbers: [NaN] ([None]) when [b] is zero, otherwise
    the remainder with the sign of the dividend. *)
Definition Number_rem (a b : Z) : option Z :=
  if b =? 0 then None else Some (Z.rem a b).

(** [x === 0] where [x] may be NaN; [-0 === 0] holds in JavaScript, and
    the integer model has a single zero. *)
Definition strict_eq_zero (x : option Z) : bool :=
  match x with
  | Some v => v =? 0
  | None => false
  end.

(** ** constants/tickMath.ts: tick snapping and tick predicates *)

Module TickMath.

Definition nearestUsableTick (tick tickSpacing : Z) : Z :=
  let rounded := Math_round_div tick tickSpacing * tickSpacing in
  if rounded <? MIN_TICK then MIN_TICK + tickSpacing
  else if rounded >? MAX_TICK then MAX_TICK - tickSpacing
  else rounded.

Definition isValidTick (tick : Z) : bool :=
  (tick >=? MIN_TICK) && (tick <=? MAX_TICK).

Definition isUsableTick (tick tickSpacing : Z) : bool :=
  strict_eq_zero (Number_rem tick tickSpacing).

End TickMath.

(** ** constants/feeTiers.ts *)

Module FeeTiers.

(** [FEE_TIERS[fee].tickSpacing], with the [Error] thrown for a fee that
    is not a key of the table. *)
Definition getTickSpacing (fee : Z) : result Z :=
  if fee =? 100 then Ok 1
  else if fee =? 500 then Ok 10
  else if fee =? 3000 then Ok 60
  else if fee =? 10000 then Ok 200
  else Throw (Error ("Invalid fee tier: " ++ NilZero.string_of_int (Z.to_int fee))).

(** [fee in FEE_TIERS]. *)
Definition isValidFeeTier (fee : Z) : bool :=
  (fee =? 100) || (fee =? 500) || (fee =? 3000) || (fee =? 10000).

(** The enum [FeeAmount] with its values, and the table [TICK_SPACINGS]
    keyed by it. *)
Inductive FeeAmount : Type :=
| LOWEST
| LOW
| MEDIUM
| HIGH.

Definition FeeAmount_value (f : FeeAmount) : Z :=
  match f with
  | LOWEST => 100
  | LOW => 500
  | MEDIUM => 3000
  | HIGH => 10000
  end.

Definition TICK_SPACINGS (f : FeeAmount) : Z :=
  match f with
  | LOWEST => 1
  | LOW => 10
  | MEDIUM => 60
  | HIGH => 200
  end.

Definition getRecommendedFeeTier (isStablePair isExoticPair : bool) : FeeAmount :=
  if isStablePair then LOWEST
  else if isExoticPair then HIGH
  else MEDIUM.

End FeeTiers.

(** ** utils/tickUtils.ts *)

Module TickUtils.

Import TickMath FeeTiers.

Definition isPositionInRange (tickLower tickUpper currentTick : Z) : bool :=
  (currentTick >=? tickLower) && (currentTick <? tickUpper).

Record Validation : Type := { valid : bool; error : option string }.

Definition validateTicks (tickLower tickUpper tickSpacing : Z) : Validation :=
  if tickLower >=? tickUpper then
    {| valid := false; error := Some "tickLower must be less than tickUpper" |}
  else if (tickLower <? MIN_TICK) || (tickUpper >? MAX_TICK) then
    {| valid := false; error := Some "Ticks out of valid range" |}
  else if negb (strict_eq_zero (Number_rem tickLower tickSpacing)) then
    {| valid := false; error := Some "tickLower not aligned to tick spacing" |}
  else if negb (strict_eq_zero (Number_rem tickUpper tickSpacing)) then
    {| valid := false; error := Some "tickUpper not aligned to tick spacing" |}
  else
    {| valid := true; error := None |}.

Record TickRange : Type := { tickLower : Z; tickUpper : Z }.

Definition getFullRangeTicks (feeTier : Z) : result TickRange :=
  tickSpacing <- getTickSpacing feeTier ;;
  Ok {| tickLower := nearestUsableTick MIN_TICK tickSpacing;
        tickUpper := nearestUsableTick MAX_TICK tickSpacing |}.

Definition getPositionWidth (tickLower tickUpper : Z) : Z :=
  tickUpper - tickLower.

(** [Math.floor((tickUpper - tickLower) / tickSpacing)]; with a zero
    spacing the quotient is an infinity or NaN ([None]). *)
Definition getTickCount (tickLower tickUpper tickSpacing : Z) : option Z :=
  if tickSpacing =? 0 then None
  else Some ((tickUpper - tickLower) / tickSpacing).

(** The loop [for (tick = startTick; tick <= tickUpper; tick += tickSpacing)
    ticks.push(tick)]; [None] when the fuel runs out before the loop
    condition fails. *)
Fixpoint usable_ticks_loop (fuel : nat) (tick tickUpper tickSpacing : Z)
  : option (list Z) :=
  match fuel with
  | O => None
  | S fuel' =>
      if tick <=? tickUpper then
        option_map (cons tick)
          (usable_ticks_loop fuel' (tick + tickSpacing) tickUpper tickSpacing)
      else Some []
  end.

(** With a zero spacing the start tick is NaN, the loop condition is false
    at once and the list is empty. *)
Definition getUsableTicksInRange (fuel : nat) (tickLower tickUpper tickSpacing : Z)
  : option (list Z) :=
  if tickSpacing =? 0 then Some []
  else
    let startTick := nearestUsableTick tickLower tickSpacing in
    usable_ticks_loop fuel startTick tickUpper tickSpacing.

End TickUtils.

(** ** Numbers that hold prices: binary64 *)

Module Number.

(** A binary64 value in the canonical form of the operations of
    [SpecFloat]: [S754_finite s m e] is [(-1)^s * m * 2^e]. *)
Definition t : Type := spec_float.

Definition prec : Z := 53.
Definition emax : Z := 1024.

Definition of_Z (z : Z) : t := binary_normalize prec emax z 0 false.

Definition add : t -> t -> t := SFadd prec emax.
Definition sub : t -> t -> t := SFsub prec emax.
Definition mul : t -> t -> t := SFmul prec emax.
Definition div : t -> t -> t := SFdiv prec emax.
Definition ltb : t -> t -> bool := SFltb.
Definition eqb : t -> t -> bool := SFeqb.

(** [a * 2^ea ?= b * 10^pb], for positive [a] and [b]. *)
Definition scaled_compare (a ea b pb : Z) : comparison :=
  (a * 2 ^ Z.max ea 0 * 10 ^ Z.max (- pb) 0
     ?= b * 10 ^ Z.max pb 0 * 2 ^ Z.max (- ea) 0).

(** Does the real number [s * 10^p] round (to nearest, ties to even) to
    the binary64 value [m * 2^e]?  The two neighbouring midpoints are
    written in units of [2^(e-2)]. *)
Definition rounds_to (m e s p : Z) : bool :=
  let lo := if (m =? 2 ^ 52) && (-1074 <? e) then 4 * m - 1 else 4 * m - 2 in
  let hi := 4 * m + 2 in
  let above := match scaled_compare lo (e - 2) s p with
               | Lt => true
               | Eq => Z.even m
               | Gt => false
               end in
  let below := match scaled_compare hi (e - 2) s p with
               | Gt => true
               | Eq => Z.even m
               | Lt => false
               end in
  above && below.

(** The least [n >= from] with [m * 2^e < 10^n]. *)
Fixpoint magnitude (fuel : nat) (m e from : Z) : Z :=
  match fuel with
  | O => from
  | S fuel' =>
      match scaled_compare m e 1 from with
      | Lt => from
      | _ => magnitude fuel' m e (from + 1)
      end
  end.

(** The [(n, k, s)] of Number::toString: [k] is the least number of
    digits for which some [s] with [k] digits has [s * 10^(n-k)] round to
    the value; of two such [s] the closer one is taken. *)
Fixpoint shortest (fuel : nat) (m e n k : Z) : Z * Z * Z :=
  let p := n - k in
  let s_lo := (m * 2 ^ Z.max e 0 * 10 ^ Z.max (- p) 0)
                / (2 ^ Z.max (- e) 0 * 10 ^ Z.max p 0) in
  let s_hi := s_lo + 1 in
  let pick (s : Z) :=
    if s =? 10 ^ k then (n + 1, k, 10 ^ (k - 1)) else (n, k, s) in
  match rounds_to m e s_lo p, rounds_to m e s_hi p with
  | true, false => pick s_lo
  | false, true => pick s_hi
  | true, true =>
      match scaled_compare (2 * m) e (2 * s_lo + 1) p with
      | Lt => pick s_lo
      | Gt => pick s_hi
      | Eq => if Z.even s_lo then pick s_lo else pick s_hi
      end
  | false, false =>
      match fuel with
      | O => pick s_lo
      | S fuel' => shortest fuel' m e n (k + 1)
      end
  end.

Definition digits (z : Z) : string := NilZero.string_of_int (Z.to_int z).

Fixpoint zeros (n : nat) : string :=
  match n with
  | O => ""
  | S n' => String "0" (zeros n')
  end.

Definition toString_finite (m e : Z) : string :=
  let n0 := magnitude 640 m e (-330) in
  let '(n, k, s) := shortest 17 m e n0 1 in
  let ds := digits s in
  if (k <=? n) && (n <=? 21) then
    (ds ++ zeros (Z.to_nat (n - k)))%string
  else if (0 <? n) && (n <=? 21) then
    (substring 0 (Z.to_nat n) ds ++ "."
       ++ substring (Z.to_nat n) (Z.to_nat (k - n)) ds)%string
  else if (-6 <? n) && (n <=? 0) then
    ("0." ++ zeros (Z.to_nat (- n)) ++ ds)%string
  else
    let ex := n - 1 in
    let sign := if ex <? 0 then "-" else "+" in
    let mant :=
      if k =? 1 then ds
      else (substring 0 1 ds ++ "." ++ substring 1 (Z.to_nat (k - 1)) ds)%string in
    (mant ++ "e" ++ sign ++ digits (Z.abs ex))%string.

(** [x.toString()] for a number [x] (Number::toString, radix 10): plain
    digits up to 21 integer digits, exponent notation from [1e21] on. *)
Definition toString (x : t) : string :=
  match x with
  | S754_nan => "NaN"
  | S754_zero _ => "0"
  | S754_infinity false => "Infinity"
  | S754_infinity true => "-Infinity"
  | S754_finite false m e => toString_finite (Z.pos m) e
  | S754_finite true m e => ("-" ++ toString_finite (Z.pos m) e)%string
  end.

End Number.

(** [Math.sqrt]: the correctly rounded square root of IEEE 754. *)
Definition Math_sqrt : Number.t -> Number.t := SFsqrt Number.prec Number.emax.

(** [Math.floor]: the greatest integer not above [x]; integers, zeros,
    infinities and NaN are returned as they are. *)
Definition Math_floor (x : Number.t) : Number.t :=
  match x with
  | S754_finite s m e =>
      if 0 <=? e then x
      else
        let q := Z.pos m / 2 ^ (- e) in
        let exact := Z.pos m mod 2 ^ (- e) =? 0 in
        if s then
          binary_normalize Number.prec Number.emax
            (- (if exact then q else q + 1)) 0 true
        else binary_normalize Number.prec Number.emax q 0 false
  | _ => x
  end.

(** [Math.round]: the nearest integer, a tie going toward +infinity. *)
Definition Math_round (x : Number.t) : Number.t :=
  match x with
  | S754_finite s m e =>
      if 0 <=? e then x
      else
        let q := Z.pos m / 2 ^ (- e) in
        let twice_r := 2 * (Z.pos m mod 2 ^ (- e)) in
        if s then
          binary_normalize Number.prec Number.emax
            (- (if twice_r <=? 2 ^ (- e) then q else q + 1)) 0 true
        else
          binary_normalize Number.prec Number.emax
            (if 2 ^ (- e) <=? twice_r then q + 1 else q) 0 false
  | _ => x
  end.

(** [JSBI.toNumber]: the binary64 value nearest to the integer. *)
Definition JSBI_toNumber (x : Z) : Number.t := Number.of_Z x.

(** ** constants/tickMath.ts: the price side *)

(** [TICK_BASE = 1.0001], that is the binary64 value nearest to it. *)
Definition TICK_BASE : Number.t := S754_finite false 4504049987333233 (-52).

Section Engine.

(** The implementation-approximated part of [Math.pow] and [Math.log]. *)
Variable pow_approx : Number.t -> Number.t -> Number.t.
Variable log_approx : Number.t -> Number.t.

(** Number::exponentiate: a NaN exponent gives NaN and a zero exponent
    gives 1 whatever the base; the remaining cases are the engine's. *)
Definition Math_pow (base exponent : Number.t) : Number.t :=
  match exponent with
  | S754_nan => S754_nan
  | S754_zero _ => Number.of_Z 1
  | _ => pow_approx base exponent
  end.

(** [Math.log(1)] is [+0]; the remaining cases are the engine's. *)
Definition Math_log (x : Number.t) : Number.t :=
  if Number.eqb x (Number.of_Z 1) then S754_zero false else log_approx x.

Definition tickToPrice (tick : Z) : Number.t :=
  Math_pow TICK_BASE (Number.of_Z tick).

Definition priceToTick (price : Number.t) : Number.t :=
  Math_floor (Number.div (Math_log price) (Math_log TICK_BASE)).

Definition tickToSqrtPriceX96 (tick : Z) : result Z :=
  let price := tickToPrice tick in
  let sqrtPrice := Math_sqrt price in
  let sqrtPriceX96 :=
    Number.mul sqrtPrice (Math_pow (Number.of_Z 2) (Number.of_Z 96)) in
  JSBI.BigInt (Number.toString (Math_floor sqrtPriceX96)).

Definition sqrtPriceX96ToTick (sqrtPriceX96 : Z) : Number.t :=
  let sqrtPrice :=
    Number.div (JSBI_toNumber sqrtPriceX96)
               (Math_pow (Number.of_Z 2) (Number.of_Z 96)) in
  let price := Number.mul sqrtPrice sqrtPrice in
  priceToTick price.

End Engine.

(** An engine for the closed examples: powers by repeated multiplication
    (exact whenever the power is a binary64 value) and a logarithm that
    knows the binary64 value nearest to [ln 1.0001]. *)
Definition pow_repeated (base exponent : Number.t) : Number.t :=
  match exponent with
  | S754_finite s m e =>
      let power (n : Z) :=
        Nat.iter (Z.to_nat n) (Number.mul base) (Number.of_Z 1) in
      let signed (n : Z) :=
        if s then Number.div (Number.of_Z 1) (power n) else power n in
      if 0 <=? e then signed (Z.pos m * 2 ^ e)
      else if Z.pos m mod 2 ^ (- e) =? 0 then signed (Z.pos m / 2 ^ (- e))
      else S754_nan
  | _ => S754_nan
  end.

Definition log_table (x : Number.t) : Number.t :=
  if Number.eqb x TICK_BASE
  then S754_finite false 7378328719195348 (-66)
  else S754_nan.

(** ** The snapping code read on binary64 values *)

Module NumberModel.

Definition nearestUsableTick (tick tickSpacing : Number.t) : Number.t :=
  let rounded := Number.mul (Math_round (Number.div tick tickSpacing)) tickSpacing in
  if Number.ltb rounded (Number.of_Z MIN_TICK) then
    Number.add (Number.of_Z MIN_TICK) tickSpacing
  else if Number.ltb (Number.of_Z MAX_TICK) rounded then
    Number.sub (Number.of_Z MAX_TICK) tickSpacing
  else rounded.

(** Both readings agree on every tick of [ticks] for the spacing [s]. *)
Definition agree_on (s : Z) (ticks : list Z) : bool :=
  forallb
    (fun t =>
       match SFcompare (nearestUsableTick (Number.of_Z t) (Number.of_Z s))
                       (Number.of_Z (TickMath.nearestUsableTick t s)) with
       | Some Eq => true
       | _ => false
       end)
    ticks.

(** [from, from + step, ...], [n] ticks. *)
Fixpoint tick_window (n : nat) (from step : Z) : list Z :=
  match n with
  | O => []
  | S n' => from :: tick_window n' (from + step) step
  end.

End NumberModel.

(** ** The sqrt price of a tick, exactly *)

(** [floor(sqrt(1.0001^tick) * 2^96)] in integer arithmetic: the value the
    protocol attaches to a tick, used to name concrete inputs. *)
Definition sqrtPriceForTick (tick : Z) : Z :=
  if 0 <=? tick then Z.sqrt (10001 ^ tick * 2 ^ 192 / 10000 ^ tick)
  else Z.sqrt (10000 ^ (- tick) * 2 ^ 192 / 10001 ^ (- tick)).

(** ** Strings *)

Module JSString.

(** [toLowerCase] on ASCII text. *)
Definition lower_ascii (c : ascii) : ascii :=
  let n := N_of_ascii c in
  if (65 <=? n)%N && (n <=? 90)%N then ascii_of_N (n + 32) else c.

Fixpoint toLowerCase (s : string) : string :=
  match s with
  | EmptyString => EmptyString
  | String c rest => String (lower_ascii c) (toLowerCase rest)
  end.

(** [s.slice(n)] for a constant [n >= 0]. *)
Fixpoint slice_from (n : nat) (s : string) : string :=
  match n, s with
  | O, _ => s
  | S n', String _ rest => slice_from n' rest
  | S _, EmptyString => EmptyString
  end.

(** [s.slice(0, n)] for a constant [n >= 0]. *)
Fixpoint slice_to (n : nat) (s : string) : string :=
  match n, s with
  | O, _ => EmptyString
  | S n', String c rest => String c (slice_to n' rest)
  | S _, EmptyString => EmptyString
  end.

Fixpoint startsWith (s searchString : string) {struct searchString} : bool :=
  match searchString with
  | EmptyString => true
  | String a p =>
      match s with
      | String b rest => Ascii.eqb a b && startsWith rest p
      | EmptyString => false
      end
  end.

Fixpoint repeat_char (c : ascii) (n : nat) : string :=
  match n with
  | O => EmptyString
  | S n' => String c (repeat_char c n')
  end.

(** [s.padStart(targetLength, c)] for a one-character pad string. *)
Definition padStart (targetLength : nat) (c : ascii) (s : string) : string :=
  (repeat_char c (targetLength - String.length s) ++ s)%string.

(** [a < b] on strings: lexicographic on the character codes. *)
Definition lessThan (a b : string) : bool := String.ltb a b.

End JSString.

(** ** Integral numbers in radix 16 *)

Definition hex_char (d : Z) : ascii :=
  if d <? 10 then ascii_of_N (Z.to_N (48 + d)) else ascii_of_N (Z.to_N (87 + d)).

(** The [k] low hexadecimal digits of [n], most significant first. *)
Fixpoint hex_digits (k : nat) (n : Z) : string :=
  match k with
  | O => EmptyString
  | S k' => String (hex_char ((n / 16 ^ Z.of_nat k') mod 16)) (hex_digits k' n)
  end.

(** [n.toString(16)] for an integral number; [None] is NaN. *)
Definition Number_toString16 (x : option Z) : string :=
  match x with
  | None => "NaN"
  | Some n =>
      let digits (m : Z) := hex_digits (Z.to_nat (Z.log2 m / 4 + 1)) m in
      if n <? 0 then ("-" ++ digits (- n))%string else digits n
  end.

(** [`${n}`] for an integral number; [None] is NaN. *)
Definition Number_toString10 (x : option Z) : string :=
  match x with
  | None => "NaN"
  | Some n => NilZero.string_of_int (Z.to_int n)
  end.

Definition hex_value (c : ascii) : option Z :=
  let n := Z.of_N (N_of_ascii c) in
  if (48 <=? n) && (n <=? 57) then Some (n - 48)
  else if (97 <=? n) && (n <=? 102) then Some (n - 87)
  else if (65 <=? n) && (n <=? 70) then Some (n - 55)
  else None.

(** The value of the longest prefix of hexadecimal digits, read after [acc]. *)
Fixpoint parse_hex_prefix (s : string) (acc : Z) : Z :=
  match s with
  | EmptyString => acc
  | String c rest =>
      match hex_value c with
      | Some d => parse_hex_prefix rest (16 * acc + d)
      | None => acc
      end
  end.

Definition is_white_space (c : ascii) : bool :=
  let n := N_of_ascii c in
  ((9 <=? n)%N && (n <=? 13)%N) || (n =? 32)%N.

Fixpoint trim_start (s : string) : string :=
  match s with
  | String c rest => if is_white_space c then trim_start rest else s
  | EmptyString => EmptyString
  end.

(** [parseInt(s, 16)] on ASCII text: leading white space, a sign and a
    [0x] prefix are skipped, then the longest run of hexadecimal digits is
    read; [None] is the NaN returned when there is no digit. *)
Definition parseInt16 (s : string) : option Z :=
  let s1 := trim_start s in
  let '(sign, s2) :=
    match s1 with
    | String "-" rest => (-1, rest)
    | String "+" rest => (1, rest)
    | _ => (1, s1)
    end in
  let s3 :=
    match s2 with
    | String "0" (String "x" rest) => rest
    | String "0" (String "X" rest) => rest
    | _ => s2
    end in
  match s3 with
  | String c _ =>
      match hex_value c with
      | Some _ => Some (sign * parse_hex_prefix s3 0)
      | None => None
      end
  | EmptyString => None
  end.

(** ** utils/pathUtils.ts *)

Module PathUtils.

Import JSString.

(** A hop; its fee is an integral number, or NaN ([None]), which is what
    [parseInt] returns when it finds no digit. *)
Record PathHop : Type := { tokenIn : string; tokenOut : string; fee : option Z }.

Definition encodePath (path : list PathHop) : result string :=
  match path with
  | [] => Throw (Error "Path cannot be empty")
  | first :: _ =>
      Ok (fold_left
            (fun encoded hop =>
               let feeHex := padStart 6 "0" (Number_toString16 (fee hop)) in
               (encoded ++ (feeHex ++ toLowerCase (slice_from 2 (tokenOut hop))))%string)
            path (toLowerCase (tokenIn first)))
  end.

Definition encodePathExactOutput (path : list PathHop) : result string :=
  let reversedPath :=
    map (fun hop => {| tokenIn := tokenOut hop;
                       tokenOut := tokenIn hop;
                       fee := fee hop |})
        (List.rev path) in
  encodePath reversedPath.

(** The [while (data.length >= 46)] loop; each round removes 46
    characters, so [fuel = data.length] rounds are never exhausted. *)
Fixpoint decode_loop (fuel : nat) (data tokenIn : string) : list PathHop :=
  match fuel with
  | O => []
  | S fuel' =>
      if (46 <=? String.length data)%nat then
        let fee := parseInt16 (slice_to 6 data) in
        let data := slice_from 6 data in
        let tokenOut := ("0x" ++ slice_to 40 data)%string in
        let data := slice_from 40 data in
        {| tokenIn := tokenIn; tokenOut := tokenOut; fee := fee |}
          :: decode_loop fuel' data tokenOut
      else []
  end.

Definition decodePath (encodedPath : string) : list PathHop :=
  let data :=
    if startsWith encodedPath "0x" then slice_from 2 encodedPath else encodedPath in
  let tokenIn := ("0x" ++ slice_to 40 data)%string in
  let data := slice_from 40 data in
  decode_loop (String.length data) data tokenIn.

(** [None] is the TypeError raised by [path[0].tokenIn] on an empty path. *)
Definition getPathTokens (path : list PathHop) : option (list string) :=
  match path with
  | [] => None
  | first :: _ => Some (tokenIn first :: map tokenOut path)
  end.

Definition validFees : list Z := [100; 500; 3000; 10000].

(** [validFees.includes(fee)]; NaN is in no list of integers. *)
Definition validFees_includes (fee : option Z) : bool :=
  match fee with
  | Some f => existsb (Z.eqb f) validFees
  | None => false
  end.

(** The first loop of [validatePath], from hop [i] on. *)
Fixpoint first_discontinuity (i : Z) (path : list PathHop) : option string :=
  match path with
  | a :: ((b :: _) as rest) =>
      if String.eqb (toLowerCase (tokenOut a)) (toLowerCase (tokenIn b)) then
        first_discontinuity (i + 1) rest
      else
        Some ("Path discontinuity at hop " ++ Number_toString10 (Some i) ++ ": "
                ++ tokenOut a ++ " !== " ++ tokenIn b)%string
  | _ => None
  end.

(** The second loop of [validatePath]. *)
Fixpoint first_invalid_fee (path : list PathHop) : option string :=
  match path with
  | [] => None
  | hop :: rest =>
      if validFees_includes (fee hop) then first_invalid_fee rest
      else Some ("Invalid fee tier: " ++ Number_toString10 (fee hop))%string
  end.

Definition validatePath (path : list PathHop) : TickUtils.Validation :=
  match path with
  | [] => {| TickUtils.valid := false;
             TickUtils.error := Some "Path cannot be empty" |}
  | _ =>
      match first_discontinuity 0 path with
      | Some e => {| TickUtils.valid := false; TickUtils.error := Some e |}
      | None =>
          match first_invalid_fee path with
          | Some e => {| TickUtils.valid := false; TickUtils.error := Some e |}
          | None => {| TickUtils.valid := true; TickUtils.error := None |}
          end
      end
  end.

Definition createSingleHopPath (tokenIn tokenOut : string) (fee : option Z)
  : list PathHop :=
  [{| tokenIn := tokenIn; tokenOut := tokenOut; fee := fee |}].

(** The loop of [createMultiHopPath]: hop [i] joins [tokens[i]] and
    [tokens[i + 1]] with [fees[i]]. *)
Fixpoint build_hops (tokens : list string) (fees : list (option Z)) : list PathHop :=
  match tokens, fees with
  | a :: ((b :: _) as rest), f :: fees' =>
      {| tokenIn := a; tokenOut := b; fee := f |} :: build_hops rest fees'
  | _, _ => []
  end.

Definition createMultiHopPath (tokens : list string) (fees : list (option Z))
  : result (list PathHop) :=
  if (List.length tokens <? 2)%nat then
    Throw (Error "Need at least 2 tokens for a path")
  else if negb (List.length fees =? List.length tokens - 1)%nat then
    Throw (Error "Number of fees must equal number of tokens minus 1")
  else Ok (build_hops tokens fees).

Definition getPathLength (path : list PathHop) : Z :=
  20 + Z.of_nat (List.length path) * 23.

End PathUtils.

(** ** utils/priceUtils.ts *)

(** [BigInt(x)] for a number: the integer it holds, and a [RangeError] when
    it is not an integer (a fraction, an infinity or NaN). *)
Definition BigInt_of_number (x : Number.t) : result Z :=
  match x with
  | S754_zero _ => Ok 0
  | S754_finite s m e =>
      let magnitude :=
        if 0 <=? e then Some (Z.pos m * 2 ^ e)
        else if Z.pos m mod 2 ^ (- e) =? 0 then Some (Z.pos m / 2 ^ (- e))
        else None in
      match magnitude with
      | Some v => Ok (if s then - v else v)
      | None => Throw RangeError
      end
  | _ => Throw RangeError
  end.

Module PriceUtils.

Import JSString.

(** [BigInt(Math.floor(slippagePercent * 100))], shared by the two
    slippage functions. *)
Definition slippage_bps (slippagePercent : Number.t) : result Z :=
  BigInt_of_number (Math_floor (Number.mul slippagePercent (Number.of_Z 100))).

(** The native [BigInt(string)] reads the literals [JSBI.BigInt] reads, and
    native [/] truncates toward zero. *)
Definition getMinimumReceived (amountOut : string) (slippagePercent : Number.t)
  : result string :=
  amount <- JSBI.BigInt amountOut ;;
  slippageBps <- slippage_bps slippagePercent ;;
  let bpsBase := 10000 in
  let minAmount := Z.quot (amount * (bpsBase - slippageBps)) bpsBase in
  Ok (JSBI.toString minAmount).

Definition getMaximumSent (amountIn : string) (slippagePercent : Number.t)
  : result string :=
  amount <- JSBI.BigInt amountIn ;;
  slippageBps <- slippage_bps slippagePercent ;;
  let bpsBase := 10000 in
  let maxAmount := Z.quot (amount * (bpsBase + slippageBps)) bpsBase in
  Ok (JSBI.toString maxAmount).

(** An observation; its timestamp is an integral number of seconds. *)
Record Observation : Type := { tickCumulative : string; timestamp : Z }.

Definition no_observation : Observation :=
  {| tickCumulative := ""; timestamp := 0 |}.

Section PriceEngine.

Variable pow_approx : Number.t -> Number.t -> Number.t.

Definition calculatePrice (sqrtPriceX96 : string) (decimals0 decimals1 : Z)
  : result Number.t :=
  sqrtPrice <- JSBI.BigInt sqrtPriceX96 ;;
  price <- JSBI.divide (JSBI.multiply sqrtPrice sqrtPrice) (JSBI.multiply Q96 Q96) ;;
  let decimalAdjustment :=
    Math_pow pow_approx (Number.of_Z 10) (Number.of_Z (decimals0 - decimals1)) in
  Ok (Number.mul (JSBI_toNumber price) decimalAdjustment).

(** [period] is not read by the code. *)
Definition calculateTWAP (observations : list Observation) (period : Z)
  : result Number.t :=
  if (List.length observations <? 2)%nat then
    Throw (Error "Need at least 2 observations to calculate TWAP")
  else
    let newest := List.last observations no_observation in
    let oldest := List.hd no_observation observations in
    newestCumulative <- JSBI.BigInt (tickCumulative newest) ;;
    oldestCumulative <- JSBI.BigInt (tickCumulative oldest) ;;
    let tickCumulativeDelta := newestCumulative - oldestCumulative in
    let timeDelta := timestamp newest - timestamp oldest in
    if timeDelta =? 0 then Throw (Error "Time delta cannot be zero")
    else
      let averageTick := Z.quot tickCumulativeDelta timeDelta in
      Ok (tickToPrice pow_approx averageTick).

End PriceEngine.

Definition isSorted (tokenA tokenB : string) : bool :=
  lessThan (toLowerCase tokenA) (toLowerCase tokenB).

Definition sortTokens (tokenA tokenB : string) : string * string :=
  if lessThan (toLowerCase tokenA) (toLowerCase tokenB)
  then (tokenA, tokenB)
  else (tokenB, tokenA).

End PriceUtils.

(** ** Permit2 utilities *)

Module Permit2Utils.

Record PermitDetails : Type :=
  { token : string; amount : string; expiration : Z; nonce : Z }.

Record PermitBatch : Type :=
  { details : list PermitDetails; spender : string; sigDeadline : Z }.

(** [expiration || thirtyDaysFromNow]: an absent ([None]) or zero
    expiration is falsy.  [now] is the value of [Date.now()], in
    milliseconds. *)
Definition expiration_or_default (now : Z) (expiration : option Z) : Z :=
  let thirtyDaysFromNow := now / 1000 + 30 * 24 * 60 * 60 in
  match expiration with
  | Some e => if e =? 0 then thirtyDaysFromNow else e
  | None => thirtyDaysFromNow
  end.

(** [tokens.map((t, i) => ...)], from index [i] on. *)
Fixpoint batch_details (tokens : list (string * string)) (exp nonce i : Z)
  : list PermitDetails :=
  match tokens with
  | [] => []
  | (tk, amt) :: rest =>
      {| token := tk; amount := amt; expiration := exp; nonce := nonce + i |}
        :: batch_details rest exp nonce (i + 1)
  end.

Definition createPermitBatch (now : Z) (tokens : list (string * string))
  (spender : string) (nonce deadline : Z) (expiration : option Z) : PermitBatch :=
  {| details := batch_details tokens (expiration_or_default now expiration) nonce 0;
     spender := spender;
     sigDeadline := deadline |}.

Definition getMaxPermitAmount : string := JSBI.toString (2 ^ 160 - 1).

End Permit2Utils.

Import TickMath TickUtils LiquidityUtils.

(** ** Statements used below *)

(** [Q128] of [calculateFees]. *)
Definition Q128 : Z := JSBI.exponentiate 2 128.

(** What the claim says about one side of the fee record, as the code has
    it: [fee] is the value behind the returned string. *)
Definition fee_of_falling_snapshot (cur last liq fee : Z) : Prop :=
  fee = - ((last - cur) * liq / Q128)
  /\ fee <= 0
  /\ (JSBI.isNegativeString (JSBI.toString fee) = true
      <-> Q128 <= (last - cur) * liq)
  /\ ((last - cur) * liq < Q128 -> JSBI.toString fee = "0").

(** The validator as the specification words it: the first failing check
    among order, bounds of both ticks, alignment of the lower tick and
    alignment of the upper tick. *)
Definition first_failing_reason (tL tU s : Z) : option string :=
  if negb (tL <? tU) then Some "tickLower must be less than tickUpper"
  else if negb (isValidTick tL && isValidTick tU) then
    Some "Ticks out of valid range"
  else if negb (isUsableTick tL s) then
    Some "tickLower not aligned to tick spacing"
  else if negb (isUsableTick tU s) then
    Some "tickUpper not aligned to tick spacing"
  else None.

(** ** Statements used by the properties of the other utilities *)

Module Notions.

Import FeeTiers JSString PathUtils PriceUtils.

(** Value of a decimal digit list read after the accumulator [acc]. *)
Fixpoint uint_value (d : Decimal.uint) (acc : Z) : Z :=
  match d with
  | Nil => acc
  | D0 d' => uint_value d' (10 * acc)
  | D1 d' => uint_value d' (10 * acc + 1)
  | D2 d' => uint_value d' (10 * acc + 2)
  | D3 d' => uint_value d' (10 * acc + 3)
  | D4 d' => uint_value d' (10 * acc + 4)
  | D5 d' => uint_value d' (10 * acc + 5)
  | D6 d' => uint_value d' (10 * acc + 6)
  | D7 d' => uint_value d' (10 * acc + 7)
  | D8 d' => uint_value d' (10 * acc + 8)
  | D9 d' => uint_value d' (10 * acc + 9)
  end.

Definition clamp_price (P A B : Z) : Z := Z.max A (Z.min P B).

Definition usable_tick_count (start tickUpper s : Z) : nat :=
  Z.to_nat (if start <=? tickUpper then (tickUpper - start) / s + 1 else 0).

Definition address_like (t : string) : Prop :=
  String.length t = 42%nat /\ slice_to 2 (toLowerCase t) = "0x".

Definition fee_in_three_bytes (hop : PathHop) : Prop :=
  exists f : Z, fee hop = Some f /\ 0 <= f < 16777216.

(** Each hop starts, up to letter case, where the previous one ended. *)
Fixpoint chained (previous : string) (path : list PathHop) : Prop :=
  match path with
  | [] => True
  | hop :: rest =>
      toLowerCase previous = toLowerCase (tokenIn hop)
      /\ chained (tokenOut hop) rest
  end.

Definition lower_hop (hop : PathHop) : PathHop :=
  {| tokenIn := toLowerCase (tokenIn hop);
     tokenOut := toLowerCase (tokenOut hop);
     fee := fee hop |}.

Definition segment (hop : PathHop) : string :=
  (padStart 6 "0" (Number_toString16 (fee hop))
     ++ toLowerCase (slice_from 2 (tokenOut hop)))%string.

Fixpoint segments (path : list PathHop) : string :=
  match path with
  | [] => EmptyString
  | hop :: rest => (segment hop ++ segments rest)%string
  end.

(** What the decoding loop builds from the segments of a path. *)
Fixpoint decoded (tokenIn0 : string) (path : list PathHop) : list PathHop :=
  match path with
  | [] => []
  | hop :: rest =>
      {| tokenIn := tokenIn0;
         tokenOut := toLowerCase (tokenOut hop);
         fee := fee hop |}
        :: decoded (toLowerCase (tokenOut hop)) rest
  end.

(** Each hop starts with the very string the previous one ended with. *)
Fixpoint linked (path : list PathHop) : Prop :=
  match path with
  | a :: ((b :: _) as rest) => tokenOut a = tokenIn b /\ linked rest
  | _ => True
  end.

Definition fee_is_valid_tier (hop : PathHop) : Prop :=
  fee hop = Some 100 \/ fee hop = Some 500 \/ fee hop = Some 3000
  \/ fee hop = Some 10000.

Definition example_first_hop : PathHop :=
  {| tokenIn := "0xC02aaA39b223FE8D0A0e5C4F27eAD9083C756Cc2";
     tokenOut := "0xA0b86991c6218b36c1d19D4a2e9Eb0cE3606eB48";
     fee := Some 3000 |}.

Definition example_second_hop : PathHop :=
  {| tokenIn := "0xa0b86991c6218b36c1d19d4a2e9eb0ce3606eb48";
     tokenOut := "0x6B175474E89094C44Da98b954EedeAC495271d0F";
     fee := Some 100 |}.

End Notions.

(** * Properties *)

(** ** Big integers *)

Lemma Q96_pos : 0 < Q96.
Proof. reflexivity. Qed.

Lemma divide_nonzero (x y : Z) : y <> 0 -> JSBI.divide x y = Ok (Z.quot x y).
Proof.
  intros Hy. unfold JSBI.divide.
  destruct (Z.eqb_spec y 0) as [E | _]; [contradiction | reflexivity].
Qed.

Lemma divide_zero (x : Z) : JSBI.divide x 0 = Throw RangeError.
Proof. reflexivity. Qed.

Lemma quot_nonneg_div (x y : Z) : 0 <= x -> 0 < y -> Z.quot x y = x / y.
Proof. intros Hx Hy. apply Z.quot_div_nonneg; assumption. Qed.

(** The printed form starts with a minus sign exactly for negative values. *)
Lemma toString_isNegative (z : Z) :
  JSBI.isNegativeString (JSBI.toString z) = (z <? 0).
Proof.
  destruct z as [| p | p]; try reflexivity.
  unfold JSBI.toString, Z.to_int, NilZero.string_of_int, NilZero.string_of_uint.
  destruct (Pos.to_uint p); reflexivity.
Qed.

Create HintDb jsbi.

#[local] Hint Unfold JSBI.multiply JSBI.subtract JSBI.lessThan
  JSBI.lessThanOrEqual : jsbi.

(** ** liquidityUtils.ts: amounts from liquidity *)

Section AmountsFromLiquidity.

Variables (s sa sb l : string) (P A B L : Z).
Hypothesis HP : JSBI.BigInt s = Ok P.
Hypothesis HA : JSBI.BigInt sa = Ok A.
Hypothesis HB : JSBI.BigInt sb = Ok B.
Hypothesis HL : JSBI.BigInt l = Ok L.

Lemma amounts_unfold :
  calculateAmountsFromLiquidity s sa sb l =
  (amounts <-
     (if P <=? A then
        a0 <- getAmount0ForLiquidity A B L ;; Ok (a0, 0)
      else if P <? B then
        a0 <- getAmount0ForLiquidity P B L ;;
        a1 <- getAmount1ForLiquidity A P L ;; Ok (a0, a1)
      else
        a1 <- getAmount1ForLiquidity A B L ;; Ok (0, a1)) ;;
   Ok {| amount0 := JSBI.toString (fst amounts);
         amount1 := JSBI.toString (snd amounts) |}).
Proof.
  unfold calculateAmountsFromLiquidity.
  rewrite HP, HA, HB, HL. reflexivity.
Qed.

(** Above the range (or on its upper bound) the position is all token1. *)
Lemma amounts_above :
  A < B -> B <= P ->
  calculateAmountsFromLiquidity s sa sb l =
  Ok {| amount0 := "0"; amount1 := JSBI.toString (Z.quot (L * (B - A)) Q96) |}.
Proof.
  intros HAB HBP. rewrite amounts_unfold.
  destruct (Z.leb_spec P A) as [H1 | _]; [lia |].
  destruct (Z.ltb_spec P B) as [H2 | _]; [lia |].
  unfold getAmount1ForLiquidity; autounfold with jsbi.
  rewrite divide_nonzero by (pose proof Q96_pos; lia).
  reflexivity.
Qed.

(** Below the range (or on its lower bound) the position is all token0,
    as long as the divisor [A * B] is not zero. *)
Lemma amounts_below :
  P <= A -> A * B <> 0 ->
  calculateAmountsFromLiquidity s sa sb l =
  Ok {| amount0 := JSBI.toString (Z.quot (L * (B - A) * Q96) (A * B));
        amount1 := "0" |}.
Proof.
  intros HPA HAB. rewrite amounts_unfold.
  destruct (Z.leb_spec P A) as [_ | H1]; [| lia].
  unfold getAmount0ForLiquidity; autounfold with jsbi.
  rewrite divide_nonzero by assumption.
  reflexivity.
Qed.

Lemma amounts_below_zero_divisor :
  P <= A -> A * B = 0 ->
  calculateAmountsFromLiquidity s sa sb l = Throw RangeError.
Proof.
  intros HPA HAB. rewrite amounts_unfold.
  destruct (Z.leb_spec P A) as [_ | H1]; [| lia].
  unfold getAmount0ForLiquidity; autounfold with jsbi.
  rewrite HAB. reflexivity.
Qed.

End AmountsFromLiquidity.

(** C1, as the code has it.  With the current sqrt price at tick 200 and
    the range between ticks -100 and 100 the price is above the range, and
    for every positive liquidity [L] the call returns [amount0 = "0"]
    exactly and [amount1 = floor(L * (sqrtB - sqrtA) / 2^96)], which is
    positive as soon as [L >= 101]: the position is all token1. *)
Theorem out_of_range_scenario_all_token1 (l : string) (L : Z) :
  JSBI.BigInt l = Ok L ->
  0 < L ->
  let a1 := L * (sqrtPriceForTick 100 - sqrtPriceForTick (-100)) / Q96 in
  calculateAmountsFromLiquidity
    (JSBI.toString (sqrtPriceForTick 200))
    (JSBI.toString (sqrtPriceForTick (-100)))
    (JSBI.toString (sqrtPriceForTick 100)) l
  = Ok {| amount0 := "0"; amount1 := JSBI.toString a1 |}
  /\ 0 <= a1
  /\ (0 < a1 <-> 101 <= L).
Proof.
  intros HL Hpos a1. subst a1.
  assert (HsP : JSBI.BigInt (JSBI.toString (sqrtPriceForTick 200))
                = Ok (sqrtPriceForTick 200)) by (vm_compute; reflexivity).
  assert (HsA : JSBI.BigInt (JSBI.toString (sqrtPriceForTick (-100)))
                = Ok (sqrtPriceForTick (-100))) by (vm_compute; reflexivity).
  assert (HsB : JSBI.BigInt (JSBI.toString (sqrtPriceForTick 100))
                = Ok (sqrtPriceForTick 100)) by (vm_compute; reflexivity).
  pose proof (amounts_above _ _ _ _ _ _ _ _ HsP HsA HsB HL) as Habove.
  clear HsP HsA HsB.
  revert Habove.
  generalize (JSBI.toString (sqrtPriceForTick 200))
             (JSBI.toString (sqrtPriceForTick (-100)))
             (JSBI.toString (sqrtPriceForTick 100)).
  intros sP sA sB.
  assert (HBP : sqrtPriceForTick 100 <= sqrtPriceForTick 200)
    by (vm_compute; discriminate).
  revert HBP. generalize (sqrtPriceForTick 200). intros P HBP.
  assert (HD : sqrtPriceForTick 100 - sqrtPriceForTick (-100)
               = 792245314384572220467701549) by (vm_compute; reflexivity).
  assert (HAB : sqrtPriceForTick (-100) < sqrtPriceForTick 100)
    by (vm_compute; reflexivity).
  revert HBP HD HAB.
  generalize (sqrtPriceForTick 100) (sqrtPriceForTick (-100)).
  intros B A HBP HD HAB Habove.
  split; [| split].
  - rewrite Habove by assumption.
    rewrite quot_nonneg_div; [reflexivity | nia | exact Q96_pos].
  - apply Z.div_pos; [nia | exact Q96_pos].
  - rewrite HD. change Q96 with 79228162514264337593543950336.
    split; intros H.
    + destruct (Z.lt_ge_cases L 101) as [Hlt | Hge]; [| assumption].
      exfalso.
      assert (Hs : L * 792245314384572220467701549
                   < 79228162514264337593543950336) by lia.
      rewrite Z.div_small in H by lia. lia.
    + apply Z.div_str_pos. lia.
Qed.

Lemma out_of_range_scenario_all_token1_witness :
  JSBI.BigInt "1000000000000000000" = Ok 1000000000000000000
  /\ calculateAmountsFromLiquidity
       (JSBI.toString (sqrtPriceForTick 200))
       (JSBI.toString (sqrtPriceForTick (-100)))
       (JSBI.toString (sqrtPriceForTick 100)) "1000000000000000000"
     = Ok {| amount0 := "0";
             amount1 := JSBI.toString
                          (1000000000000000000
                           * (sqrtPriceForTick 100 - sqrtPriceForTick (-100)) / Q96) |}.
Proof.
  split; [reflexivity |].
  apply (out_of_range_scenario_all_token1
           "1000000000000000000" 1000000000000000000); [reflexivity | lia].
Defined.

(** C1 as stated fails: at [L = 10^18] the call returns [amount0 = "0"]
    (not positive) and [amount1 = "9999541693800299"] (not zero). *)
Lemma out_of_range_scenario_counterexample :
  JSBI.toString (sqrtPriceForTick 200) = "80024378775772204256025656562"
  /\ JSBI.toString (sqrtPriceForTick (-100)) = "78833030112140176575862854578"
  /\ JSBI.toString (sqrtPriceForTick 100) = "79625275426524748796330556127"
  /\ calculateAmountsFromLiquidity
       "80024378775772204256025656562" "78833030112140176575862854578"
       "79625275426524748796330556127" "1000000000000000000"
     = Ok {| amount0 := "0"; amount1 := "9999541693800299" |}
  /\ ~ (exists a0 a1 : Z,
          calculateAmountsFromLiquidity
            "80024378775772204256025656562" "78833030112140176575862854578"
            "79625275426524748796330556127" "1000000000000000000"
          = Ok {| amount0 := JSBI.toString a0; amount1 := JSBI.toString a1 |}
          /\ 0 < a0 /\ a1 = 0).
Proof.
  assert (E : calculateAmountsFromLiquidity
                "80024378775772204256025656562" "78833030112140176575862854578"
                "79625275426524748796330556127" "1000000000000000000"
              = Ok {| amount0 := "0"; amount1 := "9999541693800299" |})
    by (vm_compute; reflexivity).
  split; [vm_compute; reflexivity |].
  split; [vm_compute; reflexivity |].
  split; [vm_compute; reflexivity |].
  split; [exact E |].
  intros (a0 & a1 & H & _ & H1). subst a1. rewrite E in H.
  discriminate H.
Qed.

(** Outside any range [A < B], whatever the bounds: at or above the upper
    bound the call returns [amount0 = "0"]; at or below the lower bound it
    returns [amount1 = "0"] provided [A * B <> 0], and throws the library's
    division-by-zero [RangeError] when [A * B = 0]. *)
Lemma calculateAmountsFromLiquidity_outside_any_bounds
  (s sa sb l : string) (P A B L : Z) :
  JSBI.BigInt s = Ok P ->
  JSBI.BigInt sa = Ok A ->
  JSBI.BigInt sb = Ok B ->
  JSBI.BigInt l = Ok L ->
  A < B ->
  (B <= P ->
   calculateAmountsFromLiquidity s sa sb l =
   Ok {| amount0 := "0"; amount1 := JSBI.toString (Z.quot (L * (B - A)) Q96) |})
  /\ (P <= A -> A * B <> 0 ->
      calculateAmountsFromLiquidity s sa sb l =
      Ok {| amount0 := JSBI.toString (Z.quot (L * (B - A) * Q96) (A * B));
            amount1 := "0" |})
  /\ (P <= A -> A * B = 0 ->
      calculateAmountsFromLiquidity s sa sb l = Throw RangeError).
Proof.
  intros HP HA HB HL HAB. split; [| split].
  - intros HBP. apply (amounts_above s sa sb l P A B L); assumption.
  - intros HPA Hnz. apply (amounts_below s sa sb l P A B L); assumption.
  - intros HPA Hz. apply (amounts_below_zero_divisor s sa sb l P A B L); assumption.
Qed.

(** For sqrt prices the protocol can produce ([MIN_SQRT_RATIO] and above)
    the divisor is never zero, so below the range the call always returns,
    with [amount1 = "0"]. *)
Lemma calculateAmountsFromLiquidity_below_valid_prices
  (s sa sb l : string) (P A B L : Z) :
  JSBI.BigInt s = Ok P ->
  JSBI.BigInt sa = Ok A ->
  JSBI.BigInt sb = Ok B ->
  JSBI.BigInt l = Ok L ->
  MIN_SQRT_RATIO <= A -> A < B -> P <= A ->
  exists r, calculateAmountsFromLiquidity s sa sb l = Ok r /\ amount1 r = "0".
Proof.
  intros HP HA HB HL Hmin HAB HPA. unfold MIN_SQRT_RATIO in Hmin.
  eexists. split.
  - apply (amounts_below s sa sb l P A B L); try assumption. nia.
  - reflexivity.
Qed.

(** A lower bound of zero is no sqrt price (it is below [MIN_SQRT_RATIO]);
    there the below-range call throws. *)
Lemma calculateAmountsFromLiquidity_zero_bound_throws :
  calculateAmountsFromLiquidity "0" "0" "1" "1" = Throw RangeError.
Proof. reflexivity. Qed.

(** C6.  For every liquidity and every range [A < B] of sqrt prices (the
    lower one at least [MIN_SQRT_RATIO]): at or below the range the call
    returns [amount1 = "0"], all token0; at or above it the call returns
    [amount0 = "0"], all token1; so outside the range the call returns and
    at most one of the two amounts is not zero. *)
Theorem calculateAmountsFromLiquidity_outside_range
  (s sa sb l : string) (P A B L : Z) :
  JSBI.BigInt s = Ok P ->
  JSBI.BigInt sa = Ok A ->
  JSBI.BigInt sb = Ok B ->
  JSBI.BigInt l = Ok L ->
  MIN_SQRT_RATIO <= A -> A < B ->
  (P <= A ->
   calculateAmountsFromLiquidity s sa sb l =
   Ok {| amount0 := JSBI.toString (Z.quot (L * (B - A) * Q96) (A * B));
         amount1 := "0" |})
  /\ (B <= P ->
      calculateAmountsFromLiquidity s sa sb l =
      Ok {| amount0 := "0";
            amount1 := JSBI.toString (Z.quot (L * (B - A)) Q96) |})
  /\ (P <= A \/ B <= P ->
      exists r : TokenAmounts,
        calculateAmountsFromLiquidity s sa sb l = Ok r
        /\ (amount0 r = "0" \/ amount1 r = "0")).
Proof.
  intros HP HA HB HL Hmin HAB.
  assert (Hnz : A * B <> 0) by (unfold MIN_SQRT_RATIO in Hmin; nia).
  assert (Hbelow : P <= A ->
            calculateAmountsFromLiquidity s sa sb l =
            Ok {| amount0 := JSBI.toString (Z.quot (L * (B - A) * Q96) (A * B));
                  amount1 := "0" |}).
  { intros HPA. apply (amounts_below s sa sb l P A B L); assumption. }
  assert (Habove : B <= P ->
            calculateAmountsFromLiquidity s sa sb l =
            Ok {| amount0 := "0";
                  amount1 := JSBI.toString (Z.quot (L * (B - A)) Q96) |}).
  { intros HBP. apply (amounts_above s sa sb l P A B L); assumption. }
  split; [exact Hbelow |]. split; [exact Habove |].
  intros [HPA | HBP].
  - eexists. split; [exact (Hbelow HPA) | right; reflexivity].
  - eexists. split; [exact (Habove HBP) | left; reflexivity].
Qed.

Lemma calculateAmountsFromLiquidity_outside_range_witness :
  MIN_SQRT_RATIO <= 5000000000
  /\ calculateAmountsFromLiquidity
       "4295128739" "5000000000" "6000000000" "1000000000000000000"
     = Ok {| amount0 := "2640938750475477919784798344533333333"; amount1 := "0" |}
  /\ calculateAmountsFromLiquidity
       "7000000000" "5000000000" "6000000000" "79228162514264337593543950336"
     = Ok {| amount0 := "0"; amount1 := "1000000000" |}.
Proof.
  assert (Hmin : MIN_SQRT_RATIO <= 5000000000) by (unfold MIN_SQRT_RATIO; lia).
  pose proof (calculateAmountsFromLiquidity_outside_range
                "4295128739" "5000000000" "6000000000" "1000000000000000000"
                4295128739 5000000000 6000000000 1000000000000000000
                eq_refl eq_refl eq_refl eq_refl Hmin eq_refl) as (Hbelow & _ & _).
  pose proof (calculateAmountsFromLiquidity_outside_range
                "7000000000" "5000000000" "6000000000"
                "79228162514264337593543950336"
                7000000000 5000000000 6000000000 79228162514264337593543950336
                eq_refl eq_refl eq_refl eq_refl Hmin eq_refl) as (_ & Habove & _).
  split; [exact Hmin |]. split.
  - rewrite Hbelow by lia. reflexivity.
  - rewrite Habove by lia. reflexivity.
Defined.

(** ** liquidityUtils.ts: liquidity from amounts *)

Lemma lessThan_select_min (x y : Z) :
  (if JSBI.lessThan x y then x else y) = Z.min x y.
Proof.
  unfold JSBI.lessThan. destruct (Z.ltb_spec x y); lia.
Qed.

(** C5.  In range ([A < P < B]) both candidate liquidities are computed,
    [liquidity0] from amount0 over [P, B] and [liquidity1] from amount1
    over [A, P], and the call returns the smaller one. *)
Theorem calculateLiquidityFromAmounts_in_range_min
  (s sa sb s0 s1 : string) (P A B x0 x1 : Z) :
  JSBI.BigInt s = Ok P ->
  JSBI.BigInt sa = Ok A ->
  JSBI.BigInt sb = Ok B ->
  JSBI.BigInt s0 = Ok x0 ->
  JSBI.BigInt s1 = Ok x1 ->
  A < P -> P < B ->
  exists liquidity0 liquidity1 : Z,
    getLiquidityForAmount0 P B x0 = Ok liquidity0
    /\ liquidity0 = Z.quot (x0 * Z.quot (P * B) Q96) (B - P)
    /\ getLiquidityForAmount1 A P x1 = Ok liquidity1
    /\ liquidity1 = Z.quot (x1 * Q96) (P - A)
    /\ calculateLiquidityFromAmounts s sa sb s0 s1
       = Ok (JSBI.toString (Z.min liquidity0 liquidity1)).
Proof.
  intros HP HA HB H0 H1 HAP HPB.
  assert (E0 : getLiquidityForAmount0 P B x0
               = Ok (Z.quot (x0 * Z.quot (P * B) Q96) (B - P))).
  { unfold getLiquidityForAmount0; autounfold with jsbi.
    rewrite divide_nonzero by (pose proof Q96_pos; lia).
    cbn [bind]. rewrite divide_nonzero by lia. reflexivity. }
  assert (E1 : getLiquidityForAmount1 A P x1 = Ok (Z.quot (x1 * Q96) (P - A))).
  { unfold getLiquidityForAmount1; autounfold with jsbi.
    rewrite divide_nonzero by lia. reflexivity. }
  eexists; eexists.
  split; [exact E0 |]. split; [reflexivity |].
  split; [exact E1 |]. split; [reflexivity |].
  unfold calculateLiquidityFromAmounts.
  rewrite HP, HA, HB, H0, H1. cbn [bind].
  unfold JSBI.lessThanOrEqual.
  destruct (Z.leb_spec P A) as [Hle | _]; [lia |].
  destruct (Z.ltb_spec P B) as [_ | Hge]; [| unfold JSBI.lessThan in *; lia].
  replace (JSBI.lessThan P B) with true
    by (unfold JSBI.lessThan; symmetry; apply Z.ltb_lt; assumption).
  rewrite E0, E1. cbn [bind].
  rewrite lessThan_select_min. reflexivity.
Qed.

Lemma calculateLiquidityFromAmounts_in_range_min_witness :
  calculateLiquidityFromAmounts
    "79228162514264337593543950336" "78833030112140176575862854578"
    "79625275426524748796330556127" "1000000" "2000000"
  = Ok "200510416".
Proof.
  destruct (calculateLiquidityFromAmounts_in_range_min
              "79228162514264337593543950336" "78833030112140176575862854578"
              "79625275426524748796330556127" "1000000" "2000000"
              79228162514264337593543950336 78833030112140176575862854578
              79625275426524748796330556127 1000000 2000000
              eq_refl eq_refl eq_refl eq_refl eq_refl eq_refl eq_refl)
    as (l0 & l1 & _ & E0 & _ & E1 & H).
  rewrite H, E0, E1. vm_compute. reflexivity.
Defined.

(** ** liquidityUtils.ts: fees *)

Lemma Q128_pos : 0 < Q128.
Proof. reflexivity. Qed.

(** A fee computed from a fee-growth snapshot that went down: the quotient
    truncates toward zero, so the fee is never positive, it is negative
    only once the product reaches [2^128], and it is zero below that. *)
Lemma signed_fee (cur last liq : Z) :
  cur < last -> 0 < liq ->
  let fee := Z.quot ((cur - last) * liq) Q128 in
  fee = - ((last - cur) * liq / Q128)
  /\ fee <= 0
  /\ (fee < 0 <-> Q128 <= (last - cur) * liq)
  /\ ((last - cur) * liq < Q128 -> fee = 0).
Proof.
  intros Hlt Hliq fee. subst fee.
  pose proof Q128_pos as HQ.
  assert (Hprod : 0 < (last - cur) * liq) by nia.
  replace ((cur - last) * liq) with (- ((last - cur) * liq)) by ring.
  rewrite Z.quot_opp_l by lia.
  rewrite quot_nonneg_div by lia.
  assert (Hnn : 0 <= (last - cur) * liq / Q128) by (apply Z.div_pos; lia).
  split; [reflexivity |]. split; [lia |].
  split; [split; intros H |].
  - destruct (Z.lt_ge_cases ((last - cur) * liq) Q128) as [Hs | Hg]; [| assumption].
    rewrite Z.div_small in H by lia. lia.
  - assert (0 < (last - cur) * liq / Q128) by (apply Z.div_str_pos; lia). lia.
  - intros Hs. rewrite Z.div_small by lia. reflexivity.
Qed.

Lemma fee_of_falling_snapshot_holds (cur last liq : Z) :
  cur < last -> 0 < liq ->
  fee_of_falling_snapshot cur last liq (Z.quot ((cur - last) * liq) Q128).
Proof.
  intros Hlt Hliq.
  destruct (signed_fee cur last liq Hlt Hliq) as (E & Hle & Hiff & Hz).
  unfold fee_of_falling_snapshot.
  split; [exact E |]. split; [exact Hle |]. split.
  - rewrite toString_isNegative, Z.ltb_lt. exact Hiff.
  - intros Hs. rewrite (Hz Hs). reflexivity.
Qed.

(** C10, as the code has it.  The fee deltas are plain signed
    subtractions and the quotient by [2^128] truncates toward zero.  When a
    current snapshot is below the last one and liquidity is positive, the
    returned fee is never positive and never wrapped; its string is
    negative exactly when [(last - current) * liquidity >= 2^128], and it
    is ["0"] below that. *)
Theorem calculateFees_signed_no_wraparound
  (s0 s1 sl s0last s1last : string) (cur0 cur1 liq last0 last1 : Z) :
  JSBI.BigInt s0 = Ok cur0 ->
  JSBI.BigInt s1 = Ok cur1 ->
  JSBI.BigInt sl = Ok liq ->
  JSBI.BigInt s0last = Ok last0 ->
  JSBI.BigInt s1last = Ok last1 ->
  let fee0 := Z.quot ((cur0 - last0) * liq) Q128 in
  let fee1 := Z.quot ((cur1 - last1) * liq) Q128 in
  calculateFees s0 s1 sl s0last s1last
  = Ok {| fees0 := JSBI.toString fee0; fees1 := JSBI.toString fee1 |}
  /\ (cur0 < last0 -> 0 < liq -> fee_of_falling_snapshot cur0 last0 liq fee0)
  /\ (cur1 < last1 -> 0 < liq -> fee_of_falling_snapshot cur1 last1 liq fee1).
Proof.
  intros H0 H1 Hl H0l H1l fee0 fee1.
  split; [| split].
  - unfold calculateFees. rewrite H0, H0l, H1, H1l, Hl. cbn [bind].
    autounfold with jsbi. fold Q128.
    rewrite !divide_nonzero by (pose proof Q128_pos; lia).
    reflexivity.
  - apply fee_of_falling_snapshot_holds.
  - apply fee_of_falling_snapshot_holds.
Qed.

Lemma calculateFees_signed_no_wraparound_witness :
  calculateFees "5" "0" "680564733841876926926749214863536422912" "7" "0"
  = Ok {| fees0 := "-4"; fees1 := "0" |}
  /\ fee_of_falling_snapshot 5 7 680564733841876926926749214863536422912
       (Z.quot ((5 - 7) * 680564733841876926926749214863536422912) Q128).
Proof.
  destruct (calculateFees_signed_no_wraparound
              "5" "0" "680564733841876926926749214863536422912" "7" "0"
              5 0 680564733841876926926749214863536422912 7 0
              eq_refl eq_refl eq_refl eq_refl eq_refl) as (H & Hneg & _).
  split.
  - rewrite H. reflexivity.
  - apply Hneg; reflexivity.
Defined.

(** C10 as stated fails when the product stays below [2^128]: with the
    token0 snapshot going from 1 down to 0 and liquidity 1 the returned
    fee string is ["0"], which is not negative. *)
Lemma calculateFees_small_delta_counterexample :
  JSBI.BigInt "0" = Ok 0 /\ JSBI.BigInt "1" = Ok 1 /\ 0 < 1
  /\ calculateFees "0" "0" "1" "1" "0" = Ok {| fees0 := "0"; fees1 := "0" |}
  /\ JSBI.isNegativeString "0" = false.
Proof. repeat split; reflexivity. Qed.

(** ** tickMath.ts: snapping *)

(** [Math_round_div t s] is the integer nearest to [t / s], the tie going
    up: [k - 1/2 <= t/s < k + 1/2]. *)
Lemma Math_round_div_spec (t s : Z) :
  0 < s ->
  2 * (Math_round_div t s * s) - s <= 2 * t < 2 * (Math_round_div t s * s) + s.
Proof.
  intros Hs. unfold Math_round_div.
  pose proof (Z.div_mod (2 * t + s) (2 * s) ltac:(lia)) as Hdm.
  pose proof (Z.mod_pos_bound (2 * t + s) (2 * s) ltac:(lia)) as Hb.
  nia.
Qed.

Lemma Math_round_div_multiple (k s : Z) : 0 < s -> Math_round_div (k * s) s = k.
Proof.
  intros Hs. unfold Math_round_div.
  replace (2 * (k * s) + s) with (k * (2 * s) + s) by ring.
  rewrite Z.div_add_l by lia.
  rewrite Z.div_small by lia. lia.
Qed.

Lemma nearestUsableTick_in_bounds (t s : Z) :
  MIN_TICK <= Math_round_div t s * s <= MAX_TICK ->
  nearestUsableTick t s = Math_round_div t s * s.
Proof.
  intros [Hlo Hhi]. unfold nearestUsableTick. cbv zeta.
  destruct (Z.ltb_spec (Math_round_div t s * s) MIN_TICK) as [H | _]; [lia |].
  destruct (Z.gtb_spec (Math_round_div t s * s) MAX_TICK) as [H | _]; [lia |].
  reflexivity.
Qed.

(** Past a bound the code returns the bound moved by one spacing. *)
Lemma nearestUsableTick_out_of_bounds (t s : Z) :
  (Math_round_div t s * s < MIN_TICK -> nearestUsableTick t s = MIN_TICK + s)
  /\ (MAX_TICK < Math_round_div t s * s -> nearestUsableTick t s = MAX_TICK - s).
Proof.
  unfold nearestUsableTick. cbv zeta.
  destruct (Z.ltb_spec (Math_round_div t s * s) MIN_TICK) as [H | H];
    destruct (Z.gtb_spec (Math_round_div t s * s) MAX_TICK) as [H' | H'];
    split; intros; try reflexivity; unfold MIN_TICK, MAX_TICK in *; lia.
Qed.

(** Where no bound is crossed, snapping a snapped tick changes nothing. *)
Lemma nearestUsableTick_idempotent_in_bounds (t s : Z) :
  0 < s ->
  MIN_TICK <= Math_round_div t s * s <= MAX_TICK ->
  nearestUsableTick (nearestUsableTick t s) s = nearestUsableTick t s.
Proof.
  intros Hs Hb.
  rewrite (nearestUsableTick_in_bounds t s Hb).
  rewrite nearestUsableTick_in_bounds;
    rewrite Math_round_div_multiple by assumption;
    [reflexivity | exact Hb].
Qed.

(** C2, as the code has it.  For a positive spacing [s] the rounded value
    is the multiple of [s] nearest to [t] (a tie going up), and whenever
    it lies in [[MIN_TICK, MAX_TICK]], bounds included, it is returned
    unchanged: no one-spacing margin is applied to it. *)
Theorem nearestUsableTick_returns_rounded_within_bounds (t s : Z) :
  0 < s ->
  let rounded := Math_round_div t s * s in
  (s | rounded)
  /\ - s <= 2 * (t - rounded) < s
  /\ (MIN_TICK <= rounded <= MAX_TICK -> nearestUsableTick t s = rounded).
Proof.
  intros Hs rounded. subst rounded.
  split; [| split].
  - exists (Math_round_div t s). reflexivity.
  - pose proof (Math_round_div_spec t s Hs). lia.
  - apply nearestUsableTick_in_bounds.
Qed.

Lemma nearestUsableTick_returns_rounded_within_bounds_witness :
  nearestUsableTick 125 60 = 120 /\ nearestUsableTick 150 60 = 180.
Proof.
  destruct (nearestUsableTick_returns_rounded_within_bounds 125 60 eq_refl)
    as (_ & _ & H1).
  destruct (nearestUsableTick_returns_rounded_within_bounds 150 60 eq_refl)
    as (_ & _ & H2).
  split.
  - rewrite H1; [reflexivity | vm_compute; split; discriminate].
  - rewrite H2; [reflexivity | vm_compute; split; discriminate].
Defined.

(** C2 as stated fails: with spacing 1 the absolute bounds are returned as
    they are, and with spacing 200 the tick [MIN_TICK] snaps to [-887200],
    below [MIN_TICK + 200]. *)
Lemma nearestUsableTick_margin_counterexample :
  nearestUsableTick MIN_TICK 1 = MIN_TICK
  /\ nearestUsableTick MAX_TICK 1 = MAX_TICK
  /\ nearestUsableTick MIN_TICK 200 = -887200
  /\ ~ (MIN_TICK + 200 <= nearestUsableTick MIN_TICK 200).
Proof.
  repeat split; vm_compute; congruence.
Qed.

(** The binary64 reading of the snapping code gives the same ticks on
    windows around both bounds and around zero, for the four spacings. *)
Lemma nearestUsableTick_binary64_agrees :
  forallb
    (fun s =>
       NumberModel.agree_on s (NumberModel.tick_window 1200 (MIN_TICK - 600) 1)
       && NumberModel.agree_on s (NumberModel.tick_window 1200 (- 600) 1)
       && NumberModel.agree_on s (NumberModel.tick_window 1200 (MAX_TICK - 600) 1))
    [1; 10; 60; 200] = true.
Proof. vm_compute. reflexivity. Qed.

(** C3 at the failing input.  The lower bound of a full-range position in
    the 0.3% tier: [MIN_TICK] rounds to [-887280], below [MIN_TICK], so the
    code returns [MIN_TICK + 60 = -887212], which is not a multiple of 60;
    snapping it again gives [-887220]. *)
Theorem nearestUsableTick_not_idempotent_at_MIN_TICK_60 :
  Math_round_div MIN_TICK 60 * 60 = -887280
  /\ nearestUsableTick MIN_TICK 60 = -887212
  /\ nearestUsableTick (nearestUsableTick MIN_TICK 60) 60 = -887220
  /\ nearestUsableTick (nearestUsableTick MIN_TICK 60) 60
     <> nearestUsableTick MIN_TICK 60
  /\ isUsableTick (nearestUsableTick MIN_TICK 60) 60 = false.
Proof.
  repeat split; vm_compute; congruence.
Qed.

(** The same input through the callers: the full range of the 0.3% tier
    is rejected by the module's own validator, and the binary64 reading of
    the code returns the same misaligned tick. *)
Lemma getFullRangeTicks_3000_rejected :
  getFullRangeTicks 3000 = Ok {| tickLower := -887212; tickUpper := 887212 |}
  /\ validateTicks (-887212) 887212 60
     = {| valid := false;
          error := Some "tickLower not aligned to tick spacing" |}
  /\ NumberModel.nearestUsableTick (Number.of_Z MIN_TICK) (Number.of_Z 60)
     = Number.of_Z (-887212)
  /\ NumberModel.nearestUsableTick (Number.of_Z (-887212)) (Number.of_Z 60)
     = Number.of_Z (-887220).
Proof. repeat split; vm_compute; reflexivity. Qed.

(** ** tickUtils.ts *)

(** C7.  Range membership is half open: the lower tick is inside, the
    upper tick is outside, and membership is [L <= c < U]. *)
Theorem isPositionInRange_half_open (L U : Z) :
  L < U ->
  isPositionInRange L U L = true
  /\ isPositionInRange L U U = false
  /\ (forall c : Z, isPositionInRange L U c = true <-> (c >= L /\ c < U)).
Proof.
  intros HLU. unfold isPositionInRange.
  split; [| split].
  - apply andb_true_iff. split; [apply Z.geb_le | apply Z.ltb_lt]; lia.
  - apply andb_false_iff. right. apply Z.ltb_ge. lia.
  - intros c. rewrite andb_true_iff, Z.geb_le, Z.ltb_lt. lia.
Qed.

Lemma isPositionInRange_half_open_witness :
  isPositionInRange (-60) 120 (-60) = true
  /\ isPositionInRange (-60) 120 120 = false.
Proof.
  destruct (isPositionInRange_half_open (-60) 120 eq_refl) as (H1 & H2 & _).
  split; assumption.
Defined.

Lemma isUsableTick_divide (t s : Z) :
  isUsableTick t s = true <-> s <> 0 /\ (s | t).
Proof.
  unfold isUsableTick, Number_rem, strict_eq_zero.
  destruct (Z.eqb_spec s 0) as [E | N].
  - split; [discriminate | intros [H _]; contradiction].
  - rewrite Z.eqb_eq, (Z.rem_divide t s N). tauto.
Qed.

(** C9.  [validateTicks] reports exactly the first failing check, in the
    order: [tickLower < tickUpper], both ticks within
    [[MIN_TICK, MAX_TICK]], [tickLower] aligned, [tickUpper] aligned; it is
    valid, with no error, if and only if all four hold. *)
Theorem validateTicks_first_failing_reason (tL tU s : Z) :
  error (validateTicks tL tU s) = first_failing_reason tL tU s
  /\ valid (validateTicks tL tU s)
     = match first_failing_reason tL tU s with
       | None => true
       | Some _ => false
       end
  /\ (valid (validateTicks tL tU s) = true
      <-> tL < tU
          /\ (MIN_TICK <= tL <= MAX_TICK /\ MIN_TICK <= tU <= MAX_TICK)
          /\ (s <> 0 /\ (s | tL))
          /\ (s <> 0 /\ (s | tU))).
Proof.
  rewrite <- !isUsableTick_divide.
  unfold validateTicks, first_failing_reason, isValidTick, isUsableTick.
  unfold MIN_TICK, MAX_TICK.
  destruct (Z.geb_spec tL tU) as [H1 | H1];
    destruct (Z.ltb_spec tL tU) as [H1' | H1']; try lia; cbn.
  { repeat split; try reflexivity; try discriminate. lia. }
  destruct (Z.ltb_spec tL (-887272)) as [H2 | H2];
    destruct (Z.gtb_spec tU 887272) as [H3 | H3];
    destruct (Z.geb_spec tL (-887272)) as [H2' | H2'];
    destruct (Z.leb_spec tL 887272) as [H4 | H4];
    destruct (Z.geb_spec tU (-887272)) as [H5 | H5];
    destruct (Z.leb_spec tU 887272) as [H6 | H6];
    try lia; cbn;
    try (repeat split; try reflexivity; try discriminate; lia).
  destruct (strict_eq_zero (Number_rem tL s)); cbn.
  2: { repeat split; try reflexivity; try discriminate.
       intros (_ & _ & H & _). discriminate H. }
  destruct (strict_eq_zero (Number_rem tU s)); cbn.
  2: { repeat split; try reflexivity; try discriminate.
       intros (_ & _ & _ & H). discriminate H. }
  repeat split; try reflexivity; lia.
Qed.

(** ** tickMath.ts: the zero point *)

Section ZeroPoint.

Variable pow_approx : Number.t -> Number.t -> Number.t.
Variable log_approx : Number.t -> Number.t.

(** [Math.pow(1.0001, 0)] is 1 whatever the engine. *)
Lemma tickToPrice_zero : tickToPrice pow_approx 0 = Number.of_Z 1.
Proof. reflexivity. Qed.

(** [+0] divided by a positive number is [+0]. *)
Lemma div_zero_positive (y : Number.t) :
  Number.ltb (S754_zero false) y = true ->
  Number.div (S754_zero false) y = S754_zero false.
Proof.
  destruct y as [sy | sy | | sy m e]; cbn; try discriminate.
  - destruct sy; [discriminate | reflexivity].
  - destruct sy; [discriminate | reflexivity].
Qed.

(** [Math.log(1)] is [+0], so the tick of price 1 is 0 as soon as the
    engine's [Math.log(1.0001)] is positive. *)
Lemma priceToTick_one :
  Number.ltb (S754_zero false) (log_approx TICK_BASE) = true ->
  priceToTick log_approx (Number.of_Z 1) = S754_zero false.
Proof.
  intros Hpos. unfold priceToTick.
  change (Math_log log_approx (Number.of_Z 1)) with (S754_zero false).
  change (Math_log log_approx TICK_BASE) with (log_approx TICK_BASE).
  rewrite (div_zero_positive _ Hpos). reflexivity.
Qed.

(** The fixture of the inverse direction: the sqrt price [2^96] maps to
    tick 0. *)
Lemma sqrtPriceX96ToTick_Q96 :
  pow_approx (Number.of_Z 2) (Number.of_Z 96) = Number.of_Z (2 ^ 96) ->
  Number.ltb (S754_zero false) (log_approx TICK_BASE) = true ->
  sqrtPriceX96ToTick pow_approx log_approx Q96 = S754_zero false.
Proof.
  intros Hpow Hlog. unfold sqrtPriceX96ToTick. cbv zeta.
  change (Math_pow pow_approx (Number.of_Z 2) (Number.of_Z 96))
    with (pow_approx (Number.of_Z 2) (Number.of_Z 96)).
  rewrite Hpow.
  replace (Number.mul
             (Number.div (JSBI_toNumber Q96) (Number.of_Z (2 ^ 96)))
             (Number.div (JSBI_toNumber Q96) (Number.of_Z (2 ^ 96))))
    with (Number.of_Z 1) by (vm_compute; reflexivity).
  exact (priceToTick_one Hlog).
Qed.

(** What the code computes at tick 0 up to the conversion: the number
    [2^96], printed in exponent notation. *)
Lemma sqrtPriceX96_number_at_zero :
  pow_approx (Number.of_Z 2) (Number.of_Z 96) = Number.of_Z (2 ^ 96) ->
  Math_floor
    (Number.mul (Math_sqrt (tickToPrice pow_approx 0))
                (Math_pow pow_approx (Number.of_Z 2) (Number.of_Z 96)))
  = Number.of_Z (2 ^ 96).
Proof.
  intros Hpow. rewrite tickToPrice_zero.
  change (Math_pow pow_approx (Number.of_Z 2) (Number.of_Z 96))
    with (pow_approx (Number.of_Z 2) (Number.of_Z 96)).
  rewrite Hpow. vm_compute. reflexivity.
Qed.

(** C4 at the zero point.  [tickToPrice(0)] is exactly 1 and
    [priceToTick(1.0)] is exactly 0 (given a positive [Math.log(1.0001)]),
    but [tickToSqrtPriceX96(0)] does not return [2^96]: the number [2^96]
    is printed as ["7.922816251426434e+28"], which [JSBI.BigInt] cannot
    read, so the call throws a [SyntaxError]. *)
Theorem zero_point_tickToSqrtPriceX96_throws :
  tickToPrice pow_approx 0 = Number.of_Z 1
  /\ (Number.ltb (S754_zero false) (log_approx TICK_BASE) = true ->
      priceToTick log_approx (Number.of_Z 1) = S754_zero false)
  /\ (pow_approx (Number.of_Z 2) (Number.of_Z 96) = Number.of_Z (2 ^ 96) ->
      Number.toString (Number.of_Z (2 ^ 96)) = "7.922816251426434e+28"
      /\ tickToSqrtPriceX96 pow_approx 0 = Throw SyntaxError
      /\ tickToSqrtPriceX96 pow_approx 0
         <> Ok 79228162514264337593543950336).
Proof.
  split; [exact tickToPrice_zero |].
  split; [exact priceToTick_one |].
  intros Hpow.
  assert (Hs : Number.toString (Number.of_Z (2 ^ 96)) = "7.922816251426434e+28")
    by (vm_compute; reflexivity).
  assert (Ht : tickToSqrtPriceX96 pow_approx 0 = Throw SyntaxError).
  { unfold tickToSqrtPriceX96. cbv zeta.
    rewrite (sqrtPriceX96_number_at_zero Hpow), Hs. reflexivity. }
  split; [exact Hs |]. split; [exact Ht |].
  rewrite Ht. discriminate.
Qed.

End ZeroPoint.

Lemma zero_point_tickToSqrtPriceX96_throws_witness :
  priceToTick log_table (Number.of_Z 1) = S754_zero false
  /\ tickToSqrtPriceX96 pow_repeated 0 = Throw SyntaxError.
Proof.
  destruct (zero_point_tickToSqrtPriceX96_throws pow_repeated log_table)
    as (_ & Hlog & Hpow).
  split.
  - apply Hlog. vm_compute. reflexivity.
  - apply Hpow. vm_compute. reflexivity.
Defined.

(** The conversion goes through only where the scaled value stays below
    [10^21], and then with the shortest digits of the number: [2^60] is
    read back as [1152921504606847000]. *)
Lemma BigInt_of_small_number_string :
  JSBI.BigInt (Number.toString (Math_floor (Number.of_Z (2 ^ 60))))
  = Ok 1152921504606847000.
Proof. vm_compute. reflexivity. Qed.

(** * Further properties of the utilities *)

Import FeeTiers JSString PathUtils PriceUtils Notions.

Lemma parse_digits_string_of_uint (d : Decimal.uint) (acc : Z) :
  JSBI.parse_digits (NilEmpty.string_of_uint d) acc = Some (uint_value d acc).
Proof.
  revert acc. induction d; intros acc; cbn [NilEmpty.string_of_uint JSBI.parse_digits uint_value];
    try reflexivity;
    (change (JSBI.digit_of_ascii _) with (Some 0) ||
     change (JSBI.digit_of_ascii _) with (Some 1) ||
     change (JSBI.digit_of_ascii _) with (Some 2) ||
     change (JSBI.digit_of_ascii _) with (Some 3) ||
     change (JSBI.digit_of_ascii _) with (Some 4) ||
     change (JSBI.digit_of_ascii _) with (Some 5) ||
     change (JSBI.digit_of_ascii _) with (Some 6) ||
     change (JSBI.digit_of_ascii _) with (Some 7) ||
     change (JSBI.digit_of_ascii _) with (Some 8) ||
     change (JSBI.digit_of_ascii _) with (Some 9));
    cbv iota; rewrite IHd; rewrite ?Z.add_0_r; reflexivity.
Qed.

Lemma uint_value_acc (d : Decimal.uint) (acc : positive) :
  uint_value d (Z.pos acc) = Z.pos (Pos.of_uint_acc d acc).
Proof.
  revert acc. induction d; intros acc; cbn [uint_value Pos.of_uint_acc];
    try reflexivity; rewrite <- IHd; f_equal; lia.
Qed.

Lemma uint_value_of_uint (d : Decimal.uint) :
  uint_value d 0 = Z.of_N (Pos.of_uint d).
Proof.
  induction d; cbn [uint_value Pos.of_uint]; try reflexivity;
    try (rewrite Z.mul_0_r, Z.add_0_l; rewrite uint_value_acc; reflexivity).
  rewrite Z.mul_0_r. exact IHd.
Qed.

Lemma BigInt_string_of_uint (d : Decimal.uint) :
  d <> Nil ->
  JSBI.BigInt (NilEmpty.string_of_uint d) = Ok (uint_value d 0)
  /\ JSBI.parse_nonempty_digits (NilEmpty.string_of_uint d) = Some (uint_value d 0).
Proof.
  intros Hd.
  pose proof (parse_digits_string_of_uint d 0) as Hp.
  destruct d; [contradiction | ..];
    cbn [NilEmpty.string_of_uint] in *;
    unfold JSBI.BigInt, JSBI.parse_nonempty_digits; rewrite Hp; split; reflexivity.
Qed.

Lemma BigInt_toString (z : Z) : JSBI.BigInt (JSBI.toString z) = Ok z.
Proof.
  destruct z as [| p | p]; [reflexivity | |].
  - unfold JSBI.toString, Z.to_int, NilZero.string_of_int, NilZero.string_of_uint.
    pose proof (DecimalPos.Unsigned.to_uint_nonnil p) as Hnil.
    pose proof (DecimalPos.Unsigned.of_to p) as Hof.
    destruct (BigInt_string_of_uint _ Hnil) as [HB _].
    replace (match Pos.to_uint p with
             | Nil => "0"
             | _ => NilEmpty.string_of_uint (Pos.to_uint p)
             end) with (NilEmpty.string_of_uint (Pos.to_uint p))
      by (destruct (Pos.to_uint p); [contradiction | reflexivity ..]).
    rewrite HB, uint_value_of_uint, Hof. reflexivity.
  - unfold JSBI.toString, Z.to_int, NilZero.string_of_int.
    pose proof (DecimalPos.Unsigned.to_uint_nonnil p) as Hnil.
    pose proof (DecimalPos.Unsigned.of_to p) as Hof.
    destruct (BigInt_string_of_uint _ Hnil) as [_ HB].
    unfold NilZero.string_of_uint.
    replace (match Pos.to_uint p with
             | Nil => "0"
             | _ => NilEmpty.string_of_uint (Pos.to_uint p)
             end) with (NilEmpty.string_of_uint (Pos.to_uint p))
      by (destruct (Pos.to_uint p); [contradiction | reflexivity ..]).
    unfold JSBI.BigInt. rewrite HB, uint_value_of_uint, Hof. reflexivity.
Qed.

(** ** Liquidity round trips and monotonicity *)

Section LiquidityFromAmounts.

Variables (s sa sb s0 s1 : string) (P A B x0 x1 : Z).
Hypothesis HP : JSBI.BigInt s = Ok P.
Hypothesis HA : JSBI.BigInt sa = Ok A.
Hypothesis HB : JSBI.BigInt sb = Ok B.
Hypothesis H0 : JSBI.BigInt s0 = Ok x0.
Hypothesis H1 : JSBI.BigInt s1 = Ok x1.

Lemma liquidity_unfold :
  calculateLiquidityFromAmounts s sa sb s0 s1 =
  (liquidity <-
     (if P <=? A then getLiquidityForAmount0 A B x0
      else if P <? B then
        liquidity0 <- getLiquidityForAmount0 P B x0 ;;
        liquidity1 <- getLiquidityForAmount1 A P x1 ;;
        Ok (if JSBI.lessThan liquidity0 liquidity1 then liquidity0 else liquidity1)
      else getLiquidityForAmount1 A B x1) ;;
   Ok (JSBI.toString liquidity)).
Proof.
  unfold calculateLiquidityFromAmounts.
  rewrite HP, HA, HB, H0, H1. reflexivity.
Qed.

Lemma getLiquidityForAmount0_value (a b x : Z) :
  b - a <> 0 ->
  getLiquidityForAmount0 a b x = Ok (Z.quot (x * Z.quot (a * b) Q96) (b - a)).
Proof.
  intros Hd. unfold getLiquidityForAmount0; unfold JSBI.multiply, JSBI.subtract.
  rewrite divide_nonzero by (pose proof Q96_pos; lia).
  cbn [bind]. rewrite divide_nonzero by assumption. reflexivity.
Qed.

Lemma getLiquidityForAmount1_value (a b x : Z) :
  b - a <> 0 ->
  getLiquidityForAmount1 a b x = Ok (Z.quot (x * Q96) (b - a)).
Proof.
  intros Hd. unfold getLiquidityForAmount1; unfold JSBI.multiply, JSBI.subtract.
  rewrite divide_nonzero by assumption. reflexivity.
Qed.

Lemma liquidity_below :
  P <= A -> A <> B ->
  calculateLiquidityFromAmounts s sa sb s0 s1
  = Ok (JSBI.toString (Z.quot (x0 * Z.quot (A * B) Q96) (B - A))).
Proof.
  intros HPA HAB. rewrite liquidity_unfold.
  destruct (Z.leb_spec P A) as [_ | H]; [| lia].
  rewrite getLiquidityForAmount0_value by lia. reflexivity.
Qed.

Lemma liquidity_above :
  A < P -> B <= P -> A <> B ->
  calculateLiquidityFromAmounts s sa sb s0 s1
  = Ok (JSBI.toString (Z.quot (x1 * Q96) (B - A))).
Proof.
  intros HAP HBP HAB. rewrite liquidity_unfold.
  destruct (Z.leb_spec P A) as [H | _]; [lia |].
  destruct (Z.ltb_spec P B) as [H | _]; [lia |].
  rewrite getLiquidityForAmount1_value by lia. reflexivity.
Qed.

Lemma liquidity_in_range :
  A < P -> P < B ->
  calculateLiquidityFromAmounts s sa sb s0 s1
  = Ok (JSBI.toString
          (Z.min (Z.quot (x0 * Z.quot (P * B) Q96) (B - P))
                 (Z.quot (x1 * Q96) (P - A)))).
Proof.
  intros HAP HPB. rewrite liquidity_unfold.
  destruct (Z.leb_spec P A) as [H | _]; [lia |].
  destruct (Z.ltb_spec P B) as [_ | H]; [| lia].
  rewrite getLiquidityForAmount0_value, getLiquidityForAmount1_value by lia.
  cbn [bind]. rewrite lessThan_select_min. reflexivity.
Qed.

Lemma liquidity_empty_range :
  A = B -> calculateLiquidityFromAmounts s sa sb s0 s1 = Throw RangeError.
Proof.
  intros E. rewrite liquidity_unfold. rewrite E.
  unfold getLiquidityForAmount0, getLiquidityForAmount1; unfold JSBI.multiply, JSBI.subtract.
  rewrite Z.sub_diag.
  destruct (Z.leb_spec P B) as [Hle | Hgt].
  - rewrite divide_nonzero by (pose proof Q96_pos; lia). reflexivity.
  - destruct (Z.ltb_spec P B) as [Hlt | _]; [lia | reflexivity].
Qed.

End LiquidityFromAmounts.

(** X3.  Outside the range one amount alone decides the liquidity: below it
    [amount0] (neither [amount1] nor the current price is read), above it
    [amount1].  An empty range ([A = B]) makes every call throw the
    division-by-zero [RangeError]. *)
Theorem calculateLiquidityFromAmounts_outside_range
  (s sa sb s0 s1 : string) (P A B x0 x1 : Z) :
  JSBI.BigInt s = Ok P ->
  JSBI.BigInt sa = Ok A ->
  JSBI.BigInt sb = Ok B ->
  JSBI.BigInt s0 = Ok x0 ->
  JSBI.BigInt s1 = Ok x1 ->
  (A < B -> P <= A ->
   calculateLiquidityFromAmounts s sa sb s0 s1
   = Ok (JSBI.toString (Z.quot (x0 * Z.quot (A * B) Q96) (B - A))))
  /\ (A < B -> B <= P ->
      calculateLiquidityFromAmounts s sa sb s0 s1
      = Ok (JSBI.toString (Z.quot (x1 * Q96) (B - A))))
  /\ (A = B -> calculateLiquidityFromAmounts s sa sb s0 s1 = Throw RangeError).
Proof.
  intros HP HA HB H0 H1. split; [| split].
  - intros HAB HPA. apply (liquidity_below s sa sb s0 s1 P A B x0 x1); auto; lia.
  - intros HAB HBP. apply (liquidity_above s sa sb s0 s1 P A B x0 x1); auto; lia.
  - intros E. apply (liquidity_empty_range s sa sb s0 s1 P A B x0 x1); auto.
Qed.

(** Recovered amounts never exceed the deposited ones. *)
Lemma round_trip_amount_bounds (P A B x0 x1 : Z) :
  0 < A -> A < P -> P < B -> 0 <= x0 -> 0 <= x1 ->
  let L := Z.min (Z.quot (x0 * Z.quot (P * B) Q96) (B - P))
                 (Z.quot (x1 * Q96) (P - A)) in
  0 <= L
  /\ 0 <= Z.quot (L * (B - P) * Q96) (P * B) <= x0
  /\ 0 <= Z.quot (L * (P - A)) Q96 <= x1.
Proof.
  intros HA HAP HPB Hx0 Hx1 L.
  pose proof Q96_pos as HQ.
  assert (HPBpos : 0 < P * B) by nia.
  set (I := Z.quot (P * B) Q96) in *.
  assert (HI : I = P * B / Q96) by (apply quot_nonneg_div; lia).
  assert (HI0 : 0 <= I) by (rewrite HI; apply Z.div_pos; lia).
  assert (HIQ : I * Q96 <= P * B).
  { rewrite HI. rewrite Z.mul_comm. apply Z.mul_div_le. lia. }
  set (l0 := Z.quot (x0 * I) (B - P)) in *.
  set (l1 := Z.quot (x1 * Q96) (P - A)) in *.
  assert (Hl0 : l0 = x0 * I / (B - P)) by (apply quot_nonneg_div; nia).
  assert (Hl1 : l1 = x1 * Q96 / (P - A)) by (apply quot_nonneg_div; nia).
  assert (Hl0n : 0 <= l0) by (rewrite Hl0; apply Z.div_pos; nia).
  assert (Hl1n : 0 <= l1) by (rewrite Hl1; apply Z.div_pos; nia).
  assert (Hl0m : l0 * (B - P) <= x0 * I).
  { rewrite Hl0. rewrite Z.mul_comm. apply Z.mul_div_le. lia. }
  assert (Hl1m : l1 * (P - A) <= x1 * Q96).
  { rewrite Hl1. rewrite Z.mul_comm. apply Z.mul_div_le. lia. }
  assert (HL0 : 0 <= L) by (subst L; lia).
  assert (HLl0 : L <= l0) by (subst L; lia).
  assert (HLl1 : L <= l1) by (subst L; lia).
  split; [exact HL0 |].
  assert (Hn0 : 0 <= L * (B - P)) by (apply Z.mul_nonneg_nonneg; lia).
  assert (Hn1 : 0 <= L * (P - A)) by (apply Z.mul_nonneg_nonneg; lia).
  assert (Hn0Q : 0 <= L * (B - P) * Q96) by (apply Z.mul_nonneg_nonneg; lia).
  assert (Hu0 : L * (B - P) <= x0 * I).
  { apply Z.le_trans with (l0 * (B - P)); [| exact Hl0m].
    apply Z.mul_le_mono_nonneg_r; lia. }
  assert (Hu1 : L * (P - A) <= x1 * Q96).
  { apply Z.le_trans with (l1 * (P - A)); [| exact Hl1m].
    apply Z.mul_le_mono_nonneg_r; lia. }
  rewrite (quot_nonneg_div (L * (B - P) * Q96) (P * B) Hn0Q HPBpos).
  rewrite (quot_nonneg_div (L * (P - A)) Q96 Hn1 HQ).
  split; split.
  - apply Z.div_pos; lia.
  - apply Z.div_le_upper_bound; [lia |].
    apply Z.le_trans with (x0 * I * Q96).
    + apply Z.mul_le_mono_nonneg_r; lia.
    + rewrite <- Z.mul_assoc, (Z.mul_comm (P * B) x0).
      apply Z.mul_le_mono_nonneg_l; lia.
  - apply Z.div_pos; lia.
  - apply Z.div_le_upper_bound; [lia |]. lia.
Qed.

(** X1.  In range, with positive sqrt prices and non-negative amounts, the
    liquidity computed from the amounts gives back, through
    [calculateAmountsFromLiquidity], amounts that are non-negative and never
    exceed the deposited ones. *)
Theorem liquidity_amounts_round_trip
  (s sa sb s0 s1 : string) (P A B x0 x1 : Z) :
  JSBI.BigInt s = Ok P ->
  JSBI.BigInt sa = Ok A ->
  JSBI.BigInt sb = Ok B ->
  JSBI.BigInt s0 = Ok x0 ->
  JSBI.BigInt s1 = Ok x1 ->
  0 < A -> A < P -> P < B -> 0 <= x0 -> 0 <= x1 ->
  exists (liquidity : string) (a0 a1 : Z),
    calculateLiquidityFromAmounts s sa sb s0 s1 = Ok liquidity
    /\ calculateAmountsFromLiquidity s sa sb liquidity
       = Ok {| amount0 := JSBI.toString a0; amount1 := JSBI.toString a1 |}
    /\ 0 <= a0 <= x0
    /\ 0 <= a1 <= x1.
Proof.
  intros HP HA HB H0 H1 HApos HAP HPB Hx0 Hx1.
  destruct (round_trip_amount_bounds P A B x0 x1 HApos HAP HPB Hx0 Hx1)
    as (HL & Ha0 & Ha1).
  set (L := Z.min (Z.quot (x0 * Z.quot (P * B) Q96) (B - P))
                  (Z.quot (x1 * Q96) (P - A))) in *.
  exists (JSBI.toString L).
  exists (Z.quot (L * (B - P) * Q96) (P * B)), (Z.quot (L * (P - A)) Q96).
  split; [| split; [| split; assumption]].
  - apply (liquidity_in_range s sa sb s0 s1 P A B x0 x1); assumption.
  - rewrite (amounts_unfold s sa sb (JSBI.toString L) P A B L HP HA HB
               (BigInt_toString L)).
    destruct (Z.leb_spec P A) as [H | _]; [lia |].
    destruct (Z.ltb_spec P B) as [_ | H]; [| lia].
    unfold getAmount0ForLiquidity, getAmount1ForLiquidity; unfold JSBI.multiply, JSBI.subtract.
    assert (HPB0 : P * B <> 0) by (apply Z.neq_mul_0; split; lia).
    rewrite divide_nonzero by exact HPB0. cbn [bind].
    rewrite divide_nonzero by (pose proof Q96_pos; lia).
    reflexivity.
Qed.

(** ** Amounts as a function of the current price *)

Lemma amounts_clamped (s sa sb l : string) (P A B L : Z) :
  JSBI.BigInt s = Ok P ->
  JSBI.BigInt sa = Ok A ->
  JSBI.BigInt sb = Ok B ->
  JSBI.BigInt l = Ok L ->
  0 < A -> A < B ->
  let c := clamp_price P A B in
  calculateAmountsFromLiquidity s sa sb l
  = Ok {| amount0 := JSBI.toString (Z.quot (L * (B - c) * Q96) (c * B));
          amount1 := JSBI.toString (Z.quot (L * (c - A)) Q96) |}.
Proof.
  intros HP HA HB HL HApos HAB c. subst c. unfold clamp_price.
  pose proof Q96_pos as HQ.
  destruct (Z.le_gt_cases P A) as [Hle | Hgt].
  - rewrite (amounts_below s sa sb l P A B L HP HA HB HL Hle)
      by (apply Z.neq_mul_0; split; lia).
    replace (Z.max A (Z.min P B)) with A by lia.
    rewrite Z.sub_diag, Z.mul_0_r, Z.quot_0_l by lia. reflexivity.
  - destruct (Z.lt_ge_cases P B) as [Hlt | Hge].
    + replace (Z.max A (Z.min P B)) with P by lia.
      rewrite (amounts_unfold s sa sb l P A B L HP HA HB HL).
      destruct (Z.leb_spec P A) as [H | _]; [lia |].
      destruct (Z.ltb_spec P B) as [_ | H]; [| lia].
      unfold getAmount0ForLiquidity, getAmount1ForLiquidity; unfold JSBI.multiply, JSBI.subtract.
      assert (HPB0 : P * B <> 0) by (apply Z.neq_mul_0; split; lia).
      rewrite divide_nonzero by exact HPB0. cbn [bind].
      rewrite divide_nonzero by lia. reflexivity.
    + rewrite (amounts_above s sa sb l P A B L HP HA HB HL HAB) by lia.
      replace (Z.max A (Z.min P B)) with B by lia.
      rewrite Z.sub_diag, Z.mul_0_r, Z.mul_0_l.
      rewrite Z.quot_0_l by (apply Z.neq_mul_0; split; lia).
      reflexivity.
Qed.

Lemma amount_formulas_monotone (A B L c c' : Z) :
  0 < A -> 0 <= L -> A <= c -> c <= c' -> c' <= B ->
  Z.quot (L * (B - c') * Q96) (c' * B) <= Z.quot (L * (B - c) * Q96) (c * B)
  /\ Z.quot (L * (c - A)) Q96 <= Z.quot (L * (c' - A)) Q96
  /\ 0 <= Z.quot (L * (B - c') * Q96) (c' * B)
  /\ 0 <= Z.quot (L * (c - A)) Q96.
Proof.
  intros HA HL Hc Hcc HcB.
  pose proof Q96_pos as HQ.
  assert (HcBpos : 0 < c * B) by (apply Z.mul_pos_pos; lia).
  assert (Hc'Bpos : 0 < c' * B) by (apply Z.mul_pos_pos; lia).
  assert (Hden : c * B <= c' * B) by (apply Z.mul_le_mono_nonneg_r; lia).
  assert (Hn : 0 <= L * (B - c)) by (apply Z.mul_nonneg_nonneg; lia).
  assert (Hn' : 0 <= L * (B - c')) by (apply Z.mul_nonneg_nonneg; lia).
  assert (Hnn' : L * (B - c') <= L * (B - c))
    by (apply Z.mul_le_mono_nonneg_l; lia).
  assert (HnQ : 0 <= L * (B - c) * Q96) by (apply Z.mul_nonneg_nonneg; lia).
  assert (HnQ' : 0 <= L * (B - c') * Q96) by (apply Z.mul_nonneg_nonneg; lia).
  assert (HnnQ : L * (B - c') * Q96 <= L * (B - c) * Q96)
    by (apply Z.mul_le_mono_nonneg_r; lia).
  assert (Hm : 0 <= L * (c - A)) by (apply Z.mul_nonneg_nonneg; lia).
  assert (Hm' : 0 <= L * (c' - A)) by (apply Z.mul_nonneg_nonneg; lia).
  assert (Hmm : L * (c - A) <= L * (c' - A))
    by (apply Z.mul_le_mono_nonneg_l; lia).
  rewrite (quot_nonneg_div _ _ HnQ' Hc'Bpos), (quot_nonneg_div _ _ HnQ HcBpos).
  rewrite (quot_nonneg_div _ _ Hm HQ), (quot_nonneg_div _ _ Hm' HQ).
  split; [| split; [| split]].
  - apply Z.le_trans with (L * (B - c) * Q96 / (c' * B)).
    + apply Z.div_le_mono; lia.
    + apply Z.div_le_compat_l; lia.
  - apply Z.div_le_mono; lia.
  - apply Z.div_pos; lia.
  - apply Z.div_pos; lia.
Qed.

(** X2.  For a fixed range of positive sqrt prices and a non-negative
    liquidity, raising the current sqrt price never raises [amount0] and
    never lowers [amount1], across the three branches; both stay
    non-negative. *)
Theorem calculateAmountsFromLiquidity_monotone_in_price
  (s s' sa sb l : string) (P P' A B L : Z) :
  JSBI.BigInt s = Ok P ->
  JSBI.BigInt s' = Ok P' ->
  JSBI.BigInt sa = Ok A ->
  JSBI.BigInt sb = Ok B ->
  JSBI.BigInt l = Ok L ->
  0 < A -> A < B -> 0 <= L -> P <= P' ->
  exists a0 a1 a0' a1' : Z,
    calculateAmountsFromLiquidity s sa sb l
    = Ok {| amount0 := JSBI.toString a0; amount1 := JSBI.toString a1 |}
    /\ calculateAmountsFromLiquidity s' sa sb l
       = Ok {| amount0 := JSBI.toString a0'; amount1 := JSBI.toString a1' |}
    /\ 0 <= a0' <= a0
    /\ 0 <= a1 <= a1'.
Proof.
  intros HP HP' HA HB HL HApos HAB HLnn HPP.
  pose proof (amounts_clamped s sa sb l P A B L HP HA HB HL HApos HAB) as E.
  pose proof (amounts_clamped s' sa sb l P' A B L HP' HA HB HL HApos HAB) as E'.
  cbv zeta in E, E'.
  assert (Hc : A <= clamp_price P A B) by (unfold clamp_price; lia).
  assert (Hcc : clamp_price P A B <= clamp_price P' A B)
    by (unfold clamp_price; lia).
  assert (HcB : clamp_price P' A B <= B) by (unfold clamp_price; lia).
  destruct (amount_formulas_monotone A B L _ _ HApos HLnn Hc Hcc HcB)
    as (M0 & M1 & N0 & N1).
  do 4 eexists. split; [exact E |]. split; [exact E' |].
  split; lia.
Qed.

Lemma calculateLiquidityFromAmounts_outside_range_witness :
  calculateLiquidityFromAmounts "50" "100" "200" "1000" "7"
  = Ok (JSBI.toString (Z.quot (1000 * Z.quot (100 * 200) Q96) (200 - 100)))
  /\ calculateLiquidityFromAmounts "300" "100" "200" "7" "1000"
     = Ok (JSBI.toString (Z.quot (1000 * Q96) (200 - 100)))
  /\ calculateLiquidityFromAmounts "150" "200" "200" "5" "5" = Throw RangeError.
Proof.
  destruct (calculateLiquidityFromAmounts_outside_range
              "50" "100" "200" "1000" "7" 50 100 200 1000 7
              eq_refl eq_refl eq_refl eq_refl eq_refl) as (Hbelow & _ & _).
  destruct (calculateLiquidityFromAmounts_outside_range
              "300" "100" "200" "7" "1000" 300 100 200 7 1000
              eq_refl eq_refl eq_refl eq_refl eq_refl) as (_ & Habove & _).
  destruct (calculateLiquidityFromAmounts_outside_range
              "150" "200" "200" "5" "5" 150 200 200 5 5
              eq_refl eq_refl eq_refl eq_refl eq_refl) as (_ & _ & Hempty).
  split; [apply Hbelow; lia |]. split; [apply Habove; lia |].
  apply Hempty. reflexivity.
Defined.

Lemma liquidity_amounts_round_trip_witness :
  exists (liquidity : string) (a0 a1 : Z),
    calculateLiquidityFromAmounts
      "79228162514264337593543950336" "78833030112140176575862854578"
      "79625275426524748796330556127" "1000000" "2000000" = Ok liquidity
    /\ calculateAmountsFromLiquidity
         "79228162514264337593543950336" "78833030112140176575862854578"
         "79625275426524748796330556127" liquidity
       = Ok {| amount0 := JSBI.toString a0; amount1 := JSBI.toString a1 |}
    /\ 0 <= a0 <= 1000000
    /\ 0 <= a1 <= 2000000.
Proof.
  apply (liquidity_amounts_round_trip
           "79228162514264337593543950336" "78833030112140176575862854578"
           "79625275426524748796330556127" "1000000" "2000000"
           79228162514264337593543950336 78833030112140176575862854578
           79625275426524748796330556127 1000000 2000000);
    try reflexivity; lia.
Defined.

Lemma calculateAmountsFromLiquidity_monotone_in_price_witness :
  exists a0 a1 a0' a1' : Z,
    calculateAmountsFromLiquidity "120" "100" "200" "1000000000000000000000000000000"
    = Ok {| amount0 := JSBI.toString a0; amount1 := JSBI.toString a1 |}
    /\ calculateAmountsFromLiquidity "180" "100" "200" "1000000000000000000000000000000"
       = Ok {| amount0 := JSBI.toString a0'; amount1 := JSBI.toString a1' |}
    /\ 0 <= a0' <= a0
    /\ 0 <= a1 <= a1'.
Proof.
  apply (calculateAmountsFromLiquidity_monotone_in_price
           "120" "180" "100" "200" "1000000000000000000000000000000"
           120 180 100 200 1000000000000000000000000000000);
    try reflexivity; lia.
Defined.

(** ** Snapping: validity and alignment of the result *)

Lemma nearestUsableTick_cases (t s : Z) :
  let r := Math_round_div t s * s in
  (MIN_TICK <= r <= MAX_TICK /\ nearestUsableTick t s = r)
  \/ (r < MIN_TICK /\ nearestUsableTick t s = MIN_TICK + s)
  \/ (MAX_TICK < r /\ nearestUsableTick t s = MAX_TICK - s).
Proof.
  intros r. subst r.
  destruct (nearestUsableTick_out_of_bounds t s) as [Hlo Hhi].
  destruct (Z.lt_ge_cases (Math_round_div t s * s) MIN_TICK) as [H | H].
  - right; left. auto.
  - destruct (Z.lt_ge_cases MAX_TICK (Math_round_div t s * s)) as [H' | H'].
    + right; right. auto.
    + left. split; [lia |]. apply nearestUsableTick_in_bounds. lia.
Qed.

(** X4.  For every tick, in bounds or not, and every spacing from 1 to
    [MAX_TICK - MIN_TICK], the snapped tick is a valid tick. *)
Theorem nearestUsableTick_is_valid_tick (t s : Z) :
  0 < s -> s <= MAX_TICK - MIN_TICK ->
  isValidTick (nearestUsableTick t s) = true.
Proof.
  intros Hs Hmax. unfold isValidTick.
  apply andb_true_iff. rewrite Z.geb_le, Z.leb_le.
  destruct (nearestUsableTick_cases t s) as [[Hb E] | [[Hb E] | [Hb E]]];
    rewrite E; unfold MIN_TICK, MAX_TICK in *; lia.
Qed.

Lemma snapped_usable_in_bounds (t s : Z) :
  0 < s ->
  MIN_TICK <= Math_round_div t s * s <= MAX_TICK ->
  isUsableTick (nearestUsableTick t s) s = true.
Proof.
  intros Hs Hb. rewrite (nearestUsableTick_in_bounds t s Hb).
  apply isUsableTick_divide. split; [lia |].
  exists (Math_round_div t s). reflexivity.
Qed.

Lemma snapped_60_out_of_bounds (t : Z) :
  ~ (MIN_TICK <= Math_round_div t 60 * 60 <= MAX_TICK) ->
  isUsableTick (nearestUsableTick t 60) 60 = false
  /\ nearestUsableTick (nearestUsableTick t 60) 60 <> nearestUsableTick t 60.
Proof.
  intros Hout.
  destruct (nearestUsableTick_cases t 60) as [[Hb E] | [[Hb E] | [Hb E]]];
    [contradiction | |]; rewrite E; split; vm_compute; congruence.
Qed.

(** X5.  For a positive spacing the snapped tick is a multiple of the
    spacing exactly when the rounded value stayed within the bounds or the
    spacing divides [MAX_TICK]. *)
Theorem nearestUsableTick_usable_iff (t s : Z) :
  0 < s ->
  (isUsableTick (nearestUsableTick t s) s = true
   <-> (MIN_TICK <= Math_round_div t s * s <= MAX_TICK \/ (s | MAX_TICK))).
Proof.
  intros Hs. rewrite isUsableTick_divide.
  assert (Hmin : (s | MIN_TICK) <-> (s | MAX_TICK)).
  { change MIN_TICK with (- MAX_TICK). split; intros H.
    - apply Z.divide_opp_r in H. exact H.
    - apply Z.divide_opp_r. exact H. }
  destruct (nearestUsableTick_cases t s) as [[Hb E] | [[Hb E] | [Hb E]]];
    rewrite E.
  - split; [intros _; left; exact Hb |].
    intros _. split; [lia |]. exists (Math_round_div t s). reflexivity.
  - split.
    + intros [_ Hd]. right. apply Hmin.
      replace MIN_TICK with (MIN_TICK + s - 1 * s) by ring.
      apply Z.divide_sub_r; [exact Hd | apply Z.divide_factor_r].
    + intros [Hin | Hd]; [lia |].
      split; [lia |]. apply Z.divide_add_r; [apply Hmin; exact Hd | apply Z.divide_refl].
  - split.
    + intros [_ Hd]. right.
      replace MAX_TICK with (MAX_TICK - s + 1 * s) by ring.
      apply Z.divide_add_r; [exact Hd | apply Z.divide_factor_r].
    + intros [Hin | Hd]; [lia |].
      split; [lia |]. apply Z.divide_sub_r; [exact Hd | apply Z.divide_refl].
Qed.

(** Valid ticks and the four standard spacings. *)
Lemma rounded_in_bounds_standard (t s : Z) :
  MIN_TICK <= t <= MAX_TICK ->
  s = 1 \/ s = 10 \/ s = 200 \/ (s = 60 /\ -887250 <= t <= 887249) ->
  MIN_TICK <= Math_round_div t s * s <= MAX_TICK.
Proof.
  intros Ht Hs. unfold MIN_TICK, MAX_TICK in *.
  assert (Hpos : 0 < s) by lia.
  pose proof (Math_round_div_spec t s Hpos) as Hr.
  set (k := Math_round_div t s) in *.
  destruct Hs as [-> | [-> | [-> | [-> Ht60]]]]; lia.
Qed.

Lemma rounded_out_of_bounds_60 (t : Z) :
  MIN_TICK <= t <= MAX_TICK ->
  t < -887250 \/ 887249 < t ->
  ~ (MIN_TICK <= Math_round_div t 60 * 60 <= MAX_TICK).
Proof.
  intros Ht Hout. unfold MIN_TICK, MAX_TICK in *.
  pose proof (Math_round_div_spec t 60 ltac:(lia)) as Hr.
  set (k := Math_round_div t 60) in *. lia.
Qed.

(** X6.  For valid ticks: with spacing 1, 10 or 200 snapping always yields a
    usable tick and is idempotent; with spacing 60 both hold exactly for
    ticks from -887250 to 887249. *)
Theorem nearestUsableTick_standard_spacings (t : Z) :
  MIN_TICK <= t <= MAX_TICK ->
  (forall s, s = 1 \/ s = 10 \/ s = 200 ->
     isUsableTick (nearestUsableTick t s) s = true
     /\ nearestUsableTick (nearestUsableTick t s) s = nearestUsableTick t s)
  /\ (isUsableTick (nearestUsableTick t 60) 60 = true
      <-> -887250 <= t <= 887249)
  /\ (nearestUsableTick (nearestUsableTick t 60) 60 = nearestUsableTick t 60
      <-> -887250 <= t <= 887249).
Proof.
  intros Ht.
  assert (Hin60 : -887250 <= t <= 887249 ->
                  MIN_TICK <= Math_round_div t 60 * 60 <= MAX_TICK)
    by (intros H; apply rounded_in_bounds_standard; [exact Ht | tauto]).
  assert (Hout60 : ~ (-887250 <= t <= 887249) ->
                   ~ (MIN_TICK <= Math_round_div t 60 * 60 <= MAX_TICK))
    by (intros H; apply rounded_out_of_bounds_60; [exact Ht | lia]).
  split; [| split].
  - intros s Hs.
    assert (Hb : MIN_TICK <= Math_round_div t s * s <= MAX_TICK)
      by (apply rounded_in_bounds_standard; [exact Ht | tauto]).
    assert (Hpos : 0 < s) by lia.
    split.
    + apply snapped_usable_in_bounds; assumption.
    + apply nearestUsableTick_idempotent_in_bounds; assumption.
  - split.
    + intros Hu.
      destruct (Z_le_dec (-887250) t) as [H1 | H1];
        destruct (Z_le_dec t 887249) as [H2 | H2]; try lia;
        exfalso;
        destruct (snapped_60_out_of_bounds t (Hout60 ltac:(lia))) as [Hf _];
        congruence.
    + intros Hin. apply snapped_usable_in_bounds; [lia | auto].
  - split.
    + intros Hid.
      destruct (Z_le_dec (-887250) t) as [H1 | H1];
        destruct (Z_le_dec t 887249) as [H2 | H2]; try lia;
        exfalso;
        destruct (snapped_60_out_of_bounds t (Hout60 ltac:(lia))) as [_ Hf];
        contradiction.
    + intros Hin. apply nearestUsableTick_idempotent_in_bounds; [lia | auto].
Qed.

(** ** Snapping followed by validation *)

Lemma Math_round_div_monotone (a b s : Z) :
  0 < s -> a <= b -> Math_round_div a s <= Math_round_div b s.
Proof.
  intros Hs Hab. unfold Math_round_div. apply Z.div_le_mono; lia.
Qed.

Lemma validateTicks_accepts (tL tU s : Z) :
  tL < tU -> MIN_TICK <= tL -> tU <= MAX_TICK ->
  isUsableTick tL s = true -> isUsableTick tU s = true ->
  validateTicks tL tU s = {| valid := true; error := None |}.
Proof.
  intros Hlt Hlo Hhi HuL HuU. unfold validateTicks.
  unfold isUsableTick in HuL, HuU.
  destruct (Z.geb_spec tL tU) as [H | _]; [lia |].
  destruct (Z.ltb_spec tL MIN_TICK) as [H | _]; [lia |].
  destruct (Z.gtb_spec tU MAX_TICK) as [H | _]; [lia |].
  cbn [orb]. rewrite HuL, HuU. reflexivity.
Qed.

(** X7.  Two ticks [a <= b] snapped with the same positive spacing, no bound
    being crossed, are ordered; [validateTicks] accepts them when they
    differ and reports the order error when they coincide. *)
Theorem snapped_ticks_pass_validation (a b s : Z) :
  0 < s -> a <= b ->
  MIN_TICK <= Math_round_div a s * s <= MAX_TICK ->
  MIN_TICK <= Math_round_div b s * s <= MAX_TICK ->
  let tL := nearestUsableTick a s in
  let tU := nearestUsableTick b s in
  tL <= tU
  /\ (tL < tU -> validateTicks tL tU s = {| valid := true; error := None |})
  /\ (tL = tU ->
      validateTicks tL tU s
      = {| valid := false;
           error := Some "tickLower must be less than tickUpper" |}).
Proof.
  intros Hs Hab Ha Hb tL tU. subst tL tU.
  rewrite (nearestUsableTick_in_bounds a s Ha), (nearestUsableTick_in_bounds b s Hb).
  pose proof (Math_round_div_monotone a b s Hs Hab) as Hm.
  split; [nia |]. split.
  - intros Hlt. apply validateTicks_accepts; try lia.
    + apply isUsableTick_divide. split; [lia |].
      exists (Math_round_div a s). reflexivity.
    + apply isUsableTick_divide. split; [lia |].
      exists (Math_round_div b s). reflexivity.
  - intros Heq. unfold validateTicks. rewrite Heq.
    destruct (Z.geb_spec (Math_round_div b s * s) (Math_round_div b s * s)) as [_ | H];
      [reflexivity | lia].
Qed.

(** ** The list of usable ticks *)

Lemma usable_ticks_loop_spec (s tickUpper : Z) :
  0 < s ->
  forall (fuel : nat) (tick : Z),
    (usable_tick_count tick tickUpper s < fuel)%nat ->
    usable_ticks_loop fuel tick tickUpper s
    = Some (NumberModel.tick_window (usable_tick_count tick tickUpper s) tick s).
Proof.
  intros Hs. induction fuel as [| fuel IH]; intros tick Hfuel; [lia |].
  cbn [usable_ticks_loop]. unfold usable_tick_count in *.
  destruct (Z.leb_spec tick tickUpper) as [Hle | Hgt].
  - assert (Hq : (tickUpper - tick) / s = (tickUpper - (tick + s)) / s + 1).
    { replace (tickUpper - tick) with (tickUpper - (tick + s) + 1 * s) by ring.
      rewrite Z.div_add by lia. reflexivity. }
    assert (Hnn : 0 <= (tickUpper - tick) / s) by (apply Z.div_pos; lia).
    assert (Hrest :
      Z.to_nat ((tickUpper - tick) / s + 1)
      = S (Z.to_nat (if tick + s <=? tickUpper
                     then (tickUpper - (tick + s)) / s + 1 else 0))).
    { destruct (Z.leb_spec (tick + s) tickUpper) as [H1 | H1].
      - rewrite Hq.
        assert (0 <= (tickUpper - (tick + s)) / s) by (apply Z.div_pos; lia).
        lia.
      - rewrite Z.div_small by lia. reflexivity. }
    rewrite Hrest in *. cbn [NumberModel.tick_window].
    rewrite IH by lia. reflexivity.
  - reflexivity.
Qed.

Lemma tick_window_bounded (n : nat) (from s bound : Z) :
  0 < s -> from + (Z.of_nat n - 1) * s <= bound ->
  Forall (fun x => x <= bound) (NumberModel.tick_window n from s).
Proof.
  intros Hs. revert from. induction n as [| n IH]; intros from Hb;
    cbn [NumberModel.tick_window]; constructor.
  - nia.
  - apply IH. nia.
Qed.

Lemma usable_ticks_loop_diverges (s tickUpper : Z) :
  s <= 0 ->
  forall (fuel : nat) (tick : Z),
    tick <= tickUpper -> usable_ticks_loop fuel tick tickUpper s = None.
Proof.
  intros Hs. induction fuel as [| fuel IH]; intros tick Hle; [reflexivity |].
  cbn [usable_ticks_loop].
  destruct (Z.leb_spec tick tickUpper) as [_ | H]; [| lia].
  rewrite IH by lia. reflexivity.
Qed.

(** X8.  With a positive spacing the loop of [getUsableTicksInRange] ends
    and returns the ticks [start, start + s, ...] up to [tickUpper], where
    [start] is the snapped lower tick.  When [start <= tickUpper] their
    number is [getTickCount(start, tickUpper, s) + 1]; when
    [tickUpper < start] the list is empty, while [getTickCount] is
    negative.  With a negative spacing and [start <= tickUpper] the loop
    never ends; with a zero spacing the list is empty. *)
Theorem getUsableTicksInRange_progression (tickLower tickUpper s : Z) :
  let start := nearestUsableTick tickLower s in
  let n := usable_tick_count start tickUpper s in
  (0 < s ->
   (forall fuel : nat, (n < fuel)%nat ->
      getUsableTicksInRange fuel tickLower tickUpper s
      = Some (NumberModel.tick_window n start s))
   /\ Forall (fun x => x <= tickUpper) (NumberModel.tick_window n start s)
   /\ tickUpper < start + Z.of_nat n * s
   /\ (start <= tickUpper ->
       getTickCount start tickUpper s = Some (Z.of_nat n - 1))
   /\ (tickUpper < start ->
       (forall fuel : nat, (0 < fuel)%nat ->
          getUsableTicksInRange fuel tickLower tickUpper s = Some [])
       /\ exists count : Z,
            getTickCount start tickUpper s = Some count /\ count < 0))
  /\ (s < 0 -> start <= tickUpper ->
      forall fuel : nat, getUsableTicksInRange fuel tickLower tickUpper s = None)
  /\ (s = 0 ->
      forall fuel : nat, getUsableTicksInRange fuel tickLower tickUpper s = Some []).
Proof.
  intros start n. split; [| split].
  - intros Hs.
    assert (Hn : if start <=? tickUpper
                 then Z.of_nat n = (tickUpper - start) / s + 1
                 else n = 0%nat).
    { subst n. unfold usable_tick_count.
      destruct (Z.leb_spec start tickUpper) as [Hle | Hgt]; [| reflexivity].
      assert (0 <= (tickUpper - start) / s) by (apply Z.div_pos; lia). lia. }
    split; [| split; [| split; [| split]]].
    + intros fuel Hfuel. unfold getUsableTicksInRange.
      destruct (Z.eqb_spec s 0) as [E | _]; [lia |].
      apply usable_ticks_loop_spec; assumption.
    + destruct (Z.leb_spec start tickUpper) as [Hle | Hgt].
      * apply tick_window_bounded; [exact Hs |].
        rewrite Hn.
        pose proof (Z.mul_div_le (tickUpper - start) s Hs). nia.
      * rewrite Hn. constructor.
    + destruct (Z.leb_spec start tickUpper) as [Hle | Hgt].
      * rewrite Hn.
        pose proof (Z.mul_succ_div_gt (tickUpper - start) s Hs). nia.
      * rewrite Hn. lia.
    + intros Hle. unfold getTickCount.
      destruct (Z.eqb_spec s 0) as [E | _]; [lia |].
      destruct (Z.leb_spec start tickUpper) as [_ | Hgt]; [| lia].
      rewrite Hn. f_equal. lia.
    + intros Hgt.
      destruct (Z.leb_spec start tickUpper) as [Hle | _]; [lia |].
      split.
      * intros fuel Hfuel. unfold getUsableTicksInRange.
        destruct (Z.eqb_spec s 0) as [E | _]; [lia |].
        fold start.
        rewrite (usable_ticks_loop_spec s tickUpper Hs fuel start);
          fold n; rewrite Hn; [reflexivity | exact Hfuel].
      * exists ((tickUpper - start) / s). split.
        -- unfold getTickCount.
           destruct (Z.eqb_spec s 0) as [E | _]; [lia | reflexivity].
        -- apply Z.div_lt_upper_bound; lia.
  - intros Hs Hle fuel. unfold getUsableTicksInRange.
    destruct (Z.eqb_spec s 0) as [E | _]; [lia |].
    apply usable_ticks_loop_diverges; [lia | exact Hle].
  - intros -> fuel. reflexivity.
Qed.

(** ** Fee tiers and full-range positions *)

Lemma getTickSpacing_invalid (fee : Z) :
  isValidFeeTier fee = false ->
  getTickSpacing fee = Throw (Error ("Invalid fee tier: " ++ JSBI.toString fee)).
Proof.
  unfold isValidFeeTier, getTickSpacing.
  destruct (fee =? 100); [discriminate |].
  destruct (fee =? 500); [discriminate |].
  destruct (fee =? 3000); [discriminate |].
  destruct (fee =? 10000); [discriminate |].
  reflexivity.
Qed.

(** X10.  [getTickSpacing] succeeds exactly on the fees [isValidFeeTier]
    accepts and throws with the fee in the message otherwise; the table
    [TICK_SPACINGS] agrees with [FEE_TIERS]; [getRecommendedFeeTier] always
    returns a fee of the table. *)
Theorem fee_tier_tables_agree :
  (forall fee : Z,
     isValidFeeTier fee = true <-> exists spacing, getTickSpacing fee = Ok spacing)
  /\ (forall fee : Z,
        isValidFeeTier fee = false ->
        getTickSpacing fee
        = Throw (Error ("Invalid fee tier: " ++ JSBI.toString fee)))
  /\ (forall f : FeeAmount,
        getTickSpacing (FeeAmount_value f) = Ok (TICK_SPACINGS f))
  /\ (forall isStablePair isExoticPair : bool,
        isValidFeeTier
          (FeeAmount_value (getRecommendedFeeTier isStablePair isExoticPair))
        = true).
Proof.
  split; [| split; [| split]].
  - intros fee. unfold isValidFeeTier, getTickSpacing.
    destruct (fee =? 100); [split; eauto |].
    destruct (fee =? 500); [split; eauto |].
    destruct (fee =? 3000); [split; eauto |].
    destruct (fee =? 10000); [split; eauto |].
    cbn. split; [discriminate | intros [sp H]; discriminate H].
  - exact getTickSpacing_invalid.
  - intros []; reflexivity.
  - intros [] []; reflexivity.
Qed.

(** X9.  [getFullRangeTicks] throws for a fee outside the table; for a fee
    of the table the two ticks are opposite and valid, and
    [validateTicks] accepts them for every tier but 3000. *)
Theorem getFullRangeTicks_by_tier (fee : Z) :
  (isValidFeeTier fee = false ->
   getFullRangeTicks fee
   = Throw (Error ("Invalid fee tier: " ++ JSBI.toString fee)))
  /\ (forall r spacing,
        getFullRangeTicks fee = Ok r ->
        getTickSpacing fee = Ok spacing ->
        tickLower r = - tickUpper r
        /\ isValidTick (tickLower r) = true
        /\ isValidTick (tickUpper r) = true
        /\ (valid (validateTicks (tickLower r) (tickUpper r) spacing) = true
            <-> fee <> 3000)).
Proof.
  split.
  - intros Hinv. unfold getFullRangeTicks.
    rewrite (getTickSpacing_invalid fee Hinv). reflexivity.
  - intros r spacing. unfold getFullRangeTicks, getTickSpacing.
    destruct (Z.eqb_spec fee 100) as [-> | N1].
    { intros [= <-] [= <-]. vm_compute. repeat split; congruence. }
    destruct (Z.eqb_spec fee 500) as [-> | N2].
    { intros [= <-] [= <-]. vm_compute. repeat split; congruence. }
    destruct (Z.eqb_spec fee 3000) as [-> | N3].
    { intros [= <-] [= <-]. vm_compute. repeat split; congruence. }
    destruct (Z.eqb_spec fee 10000) as [-> | N4].
    { intros [= <-] [= <-]. vm_compute. repeat split; congruence. }
    cbn. discriminate.
Qed.

Lemma nearestUsableTick_is_valid_tick_witness :
  isValidTick (nearestUsableTick (-887272) 60) = true
  /\ isValidTick (nearestUsableTick 5000000 200) = true.
Proof.
  split.
  - apply (nearestUsableTick_is_valid_tick (-887272) 60); vm_compute; congruence.
  - apply (nearestUsableTick_is_valid_tick 5000000 200); vm_compute; congruence.
Defined.

Lemma nearestUsableTick_usable_iff_witness :
  isUsableTick (nearestUsableTick 125 60) 60 = true
  <-> (MIN_TICK <= Math_round_div 125 60 * 60 <= MAX_TICK \/ (60 | MAX_TICK)).
Proof.
  apply (nearestUsableTick_usable_iff 125 60). reflexivity.
Defined.

Lemma nearestUsableTick_standard_spacings_witness :
  isUsableTick (nearestUsableTick (-887260) 60) 60 = true
  <-> -887250 <= -887260 <= 887249.
Proof.
  apply (nearestUsableTick_standard_spacings (-887260)).
  vm_compute. split; congruence.
Defined.

Lemma snapped_ticks_pass_validation_witness :
  validateTicks (nearestUsableTick 125 60) (nearestUsableTick 250 60) 60
  = {| valid := true; error := None |}.
Proof.
  assert (Ha : MIN_TICK <= Math_round_div 125 60 * 60 <= MAX_TICK)
    by (vm_compute; split; congruence).
  assert (Hb : MIN_TICK <= Math_round_div 250 60 * 60 <= MAX_TICK)
    by (vm_compute; split; congruence).
  destruct (snapped_ticks_pass_validation 125 250 60 eq_refl ltac:(lia) Ha Hb)
    as (_ & Hvalid & _).
  apply Hvalid. reflexivity.
Defined.

Lemma getUsableTicksInRange_progression_witness :
  getUsableTicksInRange 10 125 250 60 = Some [120; 180; 240]
  /\ getTickCount 120 250 60 = Some 2
  /\ getUsableTicksInRange 10 300 100 60 = Some []
  /\ exists count : Z, getTickCount 300 100 60 = Some count /\ count < 0.
Proof.
  destruct (getUsableTicksInRange_progression 125 250 60) as (Hpos & _ & _).
  destruct (Hpos eq_refl) as (Hrun & _ & _ & Hcount & _).
  destruct (getUsableTicksInRange_progression 300 100 60) as (Hpos' & _ & _).
  destruct (Hpos' eq_refl) as (_ & _ & _ & _ & Hempty).
  destruct (Hempty eq_refl) as (Hnone & Hnegative).
  split; [rewrite (Hrun 10%nat); [reflexivity | vm_compute; lia] |].
  split; [exact (Hcount ltac:(vm_compute; discriminate)) |].
  split; [apply Hnone; lia | exact Hnegative].
Defined.

(** ** Strings *)

Lemma string_length_append (a b : string) :
  String.length (a ++ b) = (String.length a + String.length b)%nat.
Proof. induction a as [| c a IH]; cbn; [reflexivity | rewrite IH; reflexivity]. Qed.

Lemma string_append_assoc (a b c : string) :
  ((a ++ b) ++ c = a ++ (b ++ c))%string.
Proof. induction a as [| x a IH]; cbn; [reflexivity | rewrite IH; reflexivity]. Qed.

Lemma string_append_nil_r (a : string) : (a ++ "")%string = a.
Proof. induction a as [| x a IH]; cbn; [reflexivity | rewrite IH; reflexivity]. Qed.

Lemma slice_to_append (a b : string) :
  slice_to (String.length a) (a ++ b) = a.
Proof. induction a as [| c a IH]; cbn; [destruct b; reflexivity | rewrite IH; reflexivity]. Qed.

Lemma slice_from_append (a b : string) :
  slice_from (String.length a) (a ++ b) = b.
Proof. induction a as [| c a IH]; cbn; [reflexivity | exact IH]. Qed.

Lemma slice_to_from (n : nat) (s : string) :
  (slice_to n s ++ slice_from n s)%string = s.
Proof.
  revert s. induction n as [| n IH]; intros s; [reflexivity |].
  destruct s as [| c s]; cbn; [reflexivity | rewrite IH; reflexivity].
Qed.

Lemma slice_to_length (n : nat) (s : string) :
  (n <= String.length s)%nat -> String.length (slice_to n s) = n.
Proof.
  revert s. induction n as [| n IH]; intros s Hn; [reflexivity |].
  destruct s as [| c s]; cbn in *; [lia | rewrite IH by lia; reflexivity].
Qed.

Lemma slice_from_length (n : nat) (s : string) :
  String.length (slice_from n s) = (String.length s - n)%nat.
Proof.
  revert s. induction n as [| n IH]; intros s; cbn; [lia |].
  destruct s as [| c s]; cbn; [reflexivity | apply IH].
Qed.

Lemma toLowerCase_length (s : string) :
  String.length (toLowerCase s) = String.length s.
Proof. induction s as [| c s IH]; cbn; [reflexivity | rewrite IH; reflexivity]. Qed.

Lemma toLowerCase_slice_from (n : nat) (s : string) :
  toLowerCase (slice_from n s) = slice_from n (toLowerCase s).
Proof.
  revert s. induction n as [| n IH]; intros s; [reflexivity |].
  destruct s as [| c s]; cbn; [reflexivity | apply IH].
Qed.

Lemma lower_ascii_idempotent (c : ascii) : lower_ascii (lower_ascii c) = lower_ascii c.
Proof.
  destruct c as [[] [] [] [] [] [] [] []]; reflexivity.
Qed.

Lemma toLowerCase_idempotent (s : string) :
  toLowerCase (toLowerCase s) = toLowerCase s.
Proof.
  induction s as [| c s IH]; cbn; [reflexivity |].
  rewrite lower_ascii_idempotent, IH. reflexivity.
Qed.

Lemma repeat_char_length (c : ascii) (n : nat) :
  String.length (repeat_char c n) = n.
Proof. induction n as [| n IH]; cbn; [reflexivity | rewrite IH; reflexivity]. Qed.

(** ** Fees in six hexadecimal digits *)

Lemma hex_digits_length (k : nat) (n : Z) : String.length (hex_digits k n) = k.
Proof. induction k as [| k IH]; cbn; [reflexivity | rewrite IH; reflexivity]. Qed.

Lemma digit_cases (d : Z) :
  0 <= d < 16 ->
  d = 0 \/ d = 1 \/ d = 2 \/ d = 3 \/ d = 4 \/ d = 5 \/ d = 6 \/ d = 7 \/ d = 8
  \/ d = 9 \/ d = 10 \/ d = 11 \/ d = 12 \/ d = 13 \/ d = 14 \/ d = 15.
Proof. lia. Qed.

Ltac each_digit H :=
  apply digit_cases in H;
  repeat (destruct H as [H | H]; [subst | ]); [.. | subst].

Lemma hex_value_hex_char (d : Z) : 0 <= d < 16 -> hex_value (hex_char d) = Some d.
Proof. intros H. each_digit H; reflexivity. Qed.

Lemma parse_hex_prefix_hex_digits (k : nat) (n acc : Z) :
  0 <= n ->
  parse_hex_prefix (hex_digits k n) acc = acc * 16 ^ Z.of_nat k + n mod 16 ^ Z.of_nat k.
Proof.
  intros Hn. revert acc. induction k as [| k IH]; intros acc.
  - cbn. rewrite Z.mod_1_r. lia.
  - cbn [hex_digits parse_hex_prefix].
    rewrite hex_value_hex_char by (apply Z.mod_pos_bound; lia).
    rewrite IH.
    rewrite Nat2Z.inj_succ, Z.pow_succ_r by lia.
    rewrite (Z.mul_comm 16 (16 ^ Z.of_nat k)).
    rewrite (Z.rem_mul_r n (16 ^ Z.of_nat k) 16) by lia.
    ring.
Qed.

(** A string of at least two hexadecimal digits is read whole. *)
Lemma parseInt16_two_digits (d d' : Z) (rest : string) :
  0 <= d < 16 -> 0 <= d' < 16 ->
  parseInt16 (String (hex_char d) (String (hex_char d') rest))
  = Some (parse_hex_prefix (String (hex_char d) (String (hex_char d') rest)) 0).
Proof.
  intros Hd Hd'.
  destruct (Z.eq_dec d 0) as [-> | Hnz].
  - each_digit Hd'; unfold parseInt16; cbn -[parse_hex_prefix Z.mul];
      rewrite Z.mul_1_l; reflexivity.
  - each_digit Hd; try lia; unfold parseInt16; cbn -[parse_hex_prefix Z.mul];
      rewrite Z.mul_1_l; reflexivity.
Qed.

Lemma hex_digits_leading_zeros (k d : nat) (n : Z) :
  0 <= n < 16 ^ Z.of_nat d -> (d <= k)%nat ->
  hex_digits k n = (repeat_char "0" (k - d) ++ hex_digits d n)%string.
Proof.
  intros Hn Hdk. induction k as [| k IH].
  - replace d with 0%nat by lia. reflexivity.
  - destruct (Nat.eq_dec d (S k)) as [-> | Hne].
    + rewrite Nat.sub_diag. reflexivity.
    + replace (S k - d)%nat with (S (k - d)) by lia.
      cbn [hex_digits repeat_char append].
      rewrite <- IH by lia.
      assert (Hpow : 16 ^ Z.of_nat d <= 16 ^ Z.of_nat k)
        by (apply Z.pow_le_mono_r; lia).
      rewrite Z.div_small by lia. reflexivity.
Qed.

Lemma hex_digit_count (n : Z) :
  0 <= n < 16777216 ->
  let d := Z.to_nat (Z.log2 n / 4 + 1) in
  (d <= 6)%nat /\ n < 16 ^ Z.of_nat d.
Proof.
  intros Hn d. subst d.
  assert (Hl0 : 0 <= Z.log2 n) by apply Z.log2_nonneg.
  assert (Hq0 : 0 <= Z.log2 n / 4) by (apply Z.div_pos; lia).
  rewrite Z2Nat.id by lia.
  destruct (Z.eq_dec n 0) as [-> | Hnz].
  - cbn. split; lia.
  - assert (Hl : Z.log2 n < 24).
    { apply Z.log2_lt_pow2; [lia |]. change (2 ^ 24) with 16777216. lia. }
    split.
    + assert (Z.log2 n / 4 < 6) by (apply Z.div_lt_upper_bound; lia). lia.
    + pose proof (Z.log2_spec n ltac:(lia)) as [_ Hup].
      apply Z.lt_le_trans with (2 ^ Z.succ (Z.log2 n)); [exact Hup |].
      change 16 with (2 ^ 4). rewrite <- Z.pow_mul_r by lia.
      apply Z.pow_le_mono_r; [lia |].
      pose proof (Z.mul_succ_div_gt (Z.log2 n) 4 ltac:(lia)). lia.
Qed.

Lemma fee_hex_six_digits (f : Z) :
  0 <= f < 16777216 ->
  padStart 6 "0" (Number_toString16 (Some f)) = hex_digits 6 f.
Proof.
  intros Hf. unfold padStart, Number_toString16.
  destruct (Z.ltb_spec f 0) as [H | _]; [lia |].
  destruct (hex_digit_count f Hf) as [Hd Hlt].
  rewrite hex_digits_length.
  symmetry. apply hex_digits_leading_zeros; [lia | exact Hd].
Qed.

Lemma parseInt16_fee_hex (f : Z) :
  0 <= f < 16777216 -> parseInt16 (hex_digits 6 f) = Some f.
Proof.
  intros Hf.
  pose proof (parse_hex_prefix_hex_digits 6 f 0 ltac:(lia)) as Hp.
  change (hex_digits 6 f) with
    (String (hex_char ((f / 16 ^ Z.of_nat 5) mod 16))
       (String (hex_char ((f / 16 ^ Z.of_nat 4) mod 16)) (hex_digits 4 f))) in *.
  rewrite parseInt16_two_digits by (apply Z.mod_pos_bound; lia).
  rewrite Hp. change (16 ^ Z.of_nat 6) with 16777216.
  rewrite Z.mod_small by lia. reflexivity.
Qed.

(** ** Encoding and decoding a path *)

Lemma encode_fold (path : list PathHop) (init : string) :
  fold_left
    (fun encoded hop =>
       let feeHex := padStart 6 "0" (Number_toString16 (fee hop)) in
       (encoded ++ (feeHex ++ toLowerCase (slice_from 2 (tokenOut hop))))%string)
    path init
  = (init ++ segments path)%string.
Proof.
  revert init. induction path as [| hop rest IH]; intros init; cbn [fold_left segments].
  - rewrite string_append_nil_r. reflexivity.
  - rewrite IH. unfold segment. rewrite string_append_assoc. reflexivity.
Qed.

Lemma encodePath_segments (first : PathHop) (rest : list PathHop) :
  encodePath (first :: rest)
  = Ok (toLowerCase (tokenIn first) ++ segments (first :: rest))%string.
Proof. unfold encodePath. rewrite encode_fold. reflexivity. Qed.

Lemma address_like_body (t : string) :
  address_like t ->
  String.length (toLowerCase (slice_from 2 t)) = 40%nat
  /\ ("0x" ++ toLowerCase (slice_from 2 t))%string = toLowerCase t.
Proof.
  intros [Hlen Hpre]. split.
  - rewrite toLowerCase_length, slice_from_length, Hlen. reflexivity.
  - rewrite toLowerCase_slice_from, <- Hpre. apply slice_to_from.
Qed.

Lemma segment_shape (hop : PathHop) :
  address_like (tokenOut hop) -> fee_in_three_bytes hop ->
  exists (f : Z) (body : string),
    fee hop = Some f
    /\ segment hop = (hex_digits 6 f ++ body)%string
    /\ parseInt16 (hex_digits 6 f) = Some f
    /\ String.length body = 40%nat
    /\ ("0x" ++ body)%string = toLowerCase (tokenOut hop).
Proof.
  intros Ha (f & Hf & Hr).
  destruct (address_like_body _ Ha) as [Hlen Hbody].
  exists f, (toLowerCase (slice_from 2 (tokenOut hop))).
  split; [exact Hf |]. split.
  - unfold segment. rewrite Hf, fee_hex_six_digits by exact Hr. reflexivity.
  - split; [apply parseInt16_fee_hex; exact Hr |]. split; assumption.
Qed.

Lemma segments_length (path : list PathHop) :
  Forall (fun hop => address_like (tokenOut hop) /\ fee_in_three_bytes hop) path ->
  String.length (segments path) = (46 * List.length path)%nat.
Proof.
  induction 1 as [| hop rest [Ha Hf] _ IH]; [reflexivity |].
  cbn [segments List.length].
  destruct (segment_shape hop Ha Hf) as (f & body & _ & Hseg & _ & Hlen & _).
  rewrite string_length_append, IH, Hseg, string_length_append,
    hex_digits_length, Hlen.
  lia.
Qed.

Lemma decode_loop_segments (path : list PathHop) :
  Forall (fun hop => address_like (tokenOut hop) /\ fee_in_three_bytes hop) path ->
  forall (fuel : nat) (tokenIn0 : string),
    (String.length (segments path) <= fuel)%nat ->
    decode_loop fuel (segments path) tokenIn0 = decoded tokenIn0 path.
Proof.
  induction 1 as [| hop rest [Ha Hf] Hrest IH]; intros fuel tokenIn0 Hfuel.
  - destruct fuel; reflexivity.
  - pose proof (segments_length rest Hrest) as Hlen_rest.
    destruct (segment_shape hop Ha Hf) as (f & body & Hfee & Hseg & Hparse & Hlen & Hbody).
    cbn [segments decoded] in *.
    rewrite Hseg in *.
    rewrite !string_length_append, hex_digits_length, Hlen in Hfuel.
    destruct fuel as [| fuel]; [lia |].
    cbn [decode_loop].
    replace (46 <=? String.length ((hex_digits 6 f ++ body) ++ segments rest))%nat
      with true
      by (symmetry; apply Nat.leb_le;
          rewrite !string_length_append, hex_digits_length, Hlen; lia).
    rewrite !string_append_assoc.
    pose proof (slice_to_append (hex_digits 6 f) (body ++ segments rest)) as E1.
    pose proof (slice_from_append (hex_digits 6 f) (body ++ segments rest)) as E2.
    rewrite hex_digits_length in E1, E2. rewrite E1, E2.
    pose proof (slice_to_append body (segments rest)) as E3.
    pose proof (slice_from_append body (segments rest)) as E4.
    rewrite Hlen in E3, E4. rewrite E3, E4.
    rewrite Hparse, Hbody, Hfee.
    rewrite IH by lia. reflexivity.
Qed.

Lemma decoded_chained (previous : string) (path : list PathHop) :
  chained previous path ->
  decoded (toLowerCase previous) path = map lower_hop path.
Proof.
  revert previous. induction path as [| hop rest IH]; intros previous Hc; [reflexivity |].
  destruct Hc as [Heq Hc]. cbn [decoded map]. rewrite (IH _ Hc).
  unfold lower_hop at 2. rewrite Heq. reflexivity.
Qed.

Lemma startsWith_0x (s : string) :
  slice_to 2 s = "0x" -> startsWith s "0x" = true.
Proof.
  destruct s as [| a [| b r]]; cbn; try discriminate.
  intros [= -> ->]. reflexivity.
Qed.

Lemma startsWith_0x_append (a b : string) :
  slice_to 2 a = "0x" -> startsWith (a ++ b) "0x" = true.
Proof.
  destruct a as [| x [| y r]]; cbn; try discriminate.
  intros [= -> ->]. reflexivity.
Qed.

Lemma slice_from_append_le (n : nat) (a b : string) :
  (n <= String.length a)%nat ->
  slice_from n (a ++ b) = (slice_from n a ++ b)%string.
Proof.
  revert a. induction n as [| n IH]; intros a Hn; [reflexivity |].
  destruct a as [| c a]; cbn in *; [lia | apply IH; lia].
Qed.

Lemma decodePath_segments (t : string) (path : list PathHop) :
  address_like t ->
  Forall (fun hop => address_like (tokenOut hop) /\ fee_in_three_bytes hop) path ->
  decodePath (toLowerCase t ++ segments path) = decoded (toLowerCase t) path.
Proof.
  intros Ha Hpath.
  destruct (address_like_body t Ha) as [Hlen Hbody].
  destruct Ha as [Ht Hpre].
  unfold decodePath. cbv zeta.
  rewrite (startsWith_0x_append _ _ Hpre).
  rewrite slice_from_append_le by (rewrite toLowerCase_length; lia).
  rewrite <- toLowerCase_slice_from.
  pose proof (slice_to_append (toLowerCase (slice_from 2 t)) (segments path)) as E1.
  pose proof (slice_from_append (toLowerCase (slice_from 2 t)) (segments path)) as E2.
  rewrite Hlen in E1, E2. rewrite E1, E2, Hbody.
  apply decode_loop_segments; [exact Hpath | lia].
Qed.

(** X15.  For a non-empty path of 42-character [0x] tokens, fees from 0 to
    [16^6 - 1] and each hop starting (ignoring case) where the previous one
    ended, [decodePath (encodePath path)] is the path with its tokens in
    lower case. *)
Theorem decodePath_encodePath_round_trip (first : PathHop) (rest : list PathHop) :
  address_like (tokenIn first) ->
  Forall (fun hop => address_like (tokenOut hop) /\ fee_in_three_bytes hop)
         (first :: rest) ->
  chained (tokenIn first) (first :: rest) ->
  exists encoded : string,
    encodePath (first :: rest) = Ok encoded
    /\ decodePath encoded = map lower_hop (first :: rest).
Proof.
  intros Ha Hpath Hc.
  eexists. split; [apply encodePath_segments |].
  rewrite decodePath_segments by assumption.
  apply decoded_chained. exact Hc.
Qed.

(** X16.  The encoding of such a path has [2 + 2 * getPathLength path]
    characters: the [0x] prefix and two hexadecimal digits per byte. *)
Theorem encodePath_length (first : PathHop) (rest : list PathHop) :
  address_like (tokenIn first) ->
  Forall (fun hop => address_like (tokenOut hop) /\ fee_in_three_bytes hop)
         (first :: rest) ->
  exists encoded : string,
    encodePath (first :: rest) = Ok encoded
    /\ Z.of_nat (String.length encoded) = 2 + 2 * getPathLength (first :: rest).
Proof.
  intros [Hlen _] Hpath.
  eexists. split; [apply encodePath_segments |].
  rewrite string_length_append, toLowerCase_length, Hlen,
    (segments_length _ Hpath).
  unfold getPathLength. lia.
Qed.

(** ** What [validatePath] accepts *)

Lemma first_discontinuity_chained (first : PathHop) (rest : list PathHop) (i : Z) :
  first_discontinuity i (first :: rest) = None
  <-> chained (tokenIn first) (first :: rest).
Proof.
  revert first i. induction rest as [| next rest IH]; intros first i.
  - cbn. tauto.
  - cbn [first_discontinuity chained].
    destruct (String.eqb_spec (toLowerCase (tokenOut first))
                              (toLowerCase (tokenIn next))) as [E | N].
    + rewrite (IH next (i + 1)). cbn [chained]. tauto.
    + split; [discriminate |]. intros (_ & H & _). contradiction.
Qed.

Lemma validFees_includes_iff (hop : PathHop) :
  validFees_includes (fee hop) = true <-> fee_is_valid_tier hop.
Proof.
  unfold validFees_includes, fee_is_valid_tier, validFees.
  destruct (fee hop) as [f |].
  - cbn [existsb]. rewrite !orb_true_iff, !Z.eqb_eq.
    split.
    + intros [H | [H | [H | [H | H]]]]; subst; auto. discriminate.
    + intros [[= ->] | [[= ->] | [[= ->] | [= ->]]]]; auto.
  - split; [discriminate |]. intros [H | [H | [H | H]]]; discriminate.
Qed.

Lemma first_invalid_fee_none (path : list PathHop) :
  first_invalid_fee path = None <-> Forall fee_is_valid_tier path.
Proof.
  induction path as [| hop rest IH]; cbn [first_invalid_fee].
  - split; [constructor | reflexivity].
  - destruct (validFees_includes (fee hop)) eqn:E.
    + rewrite IH. split.
      * intros H. constructor; [apply validFees_includes_iff; exact E | exact H].
      * intros H. inversion H; assumption.
    + split; [discriminate |]. intros H. inversion H as [| ? ? Hh _]; subst.
      apply validFees_includes_iff in Hh. congruence.
Qed.

(** X17.  [validatePath] accepts exactly the non-empty paths whose hops are
    chained ignoring case and whose fees are all 100, 500, 3000 or 10000;
    an accepted path has no error, a rejected one has one, the empty path
    has its own message and a discontinuity is reported before any fee. *)
Theorem validatePath_accepts_iff (path : list PathHop) :
  (TickUtils.valid (validatePath path) = true
   <-> exists first rest,
         path = first :: rest
         /\ chained (tokenIn first) path
         /\ Forall fee_is_valid_tier path)
  /\ (TickUtils.valid (validatePath path) = true
      -> TickUtils.error (validatePath path) = None)
  /\ (TickUtils.valid (validatePath path) = false
      -> exists message, TickUtils.error (validatePath path) = Some message)
  /\ (path = [] ->
      TickUtils.error (validatePath path) = Some "Path cannot be empty")
  /\ (forall message, first_discontinuity 0 path = Some message ->
      TickUtils.error (validatePath path) = Some message).
Proof.
  destruct path as [| first rest].
  - cbn. split; [| split; [| split; [| split]]].
    + split; [discriminate | intros (f & r & H & _); discriminate H].
    + discriminate.
    + intros _. eauto.
    + reflexivity.
    + discriminate.
  - unfold validatePath.
    pose proof (first_discontinuity_chained first rest 0) as Hc.
    pose proof (first_invalid_fee_none (first :: rest)) as Hf.
    destruct (first_discontinuity 0 (first :: rest)) as [e |] eqn:Ed.
    + cbn. split; [| split; [| split; [| split]]].
      * split; [discriminate |].
        intros (f & r & [= <- <-] & Hch & _). apply Hc in Hch. discriminate.
      * discriminate.
      * intros _. eauto.
      * discriminate.
      * intros m [= <-]. reflexivity.
    + destruct (first_invalid_fee (first :: rest)) as [e |] eqn:Ef.
      * cbn. split; [| split; [| split; [| split]]].
        -- split; [discriminate |].
           intros (f & r & [= <- <-] & _ & Hfee). apply Hf in Hfee. discriminate.
        -- discriminate.
        -- intros _. eauto.
        -- discriminate.
        -- discriminate.
      * cbn. split; [| split; [| split; [| split]]].
        -- split; [| reflexivity].
           intros _. exists first, rest.
           split; [reflexivity |]. split; [apply Hc | apply Hf]; reflexivity.
        -- reflexivity.
        -- discriminate.
        -- discriminate.
        -- discriminate.
Qed.

(** ** What [decodePath] returns on any string *)

Lemma decode_loop_head (fuel : nat) (data tokenIn0 : string) :
  match decode_loop fuel data tokenIn0 with
  | [] => True
  | hop :: _ => tokenIn hop = tokenIn0
  end.
Proof.
  destruct fuel as [| fuel]; cbn [decode_loop]; [exact I |].
  destruct (46 <=? String.length data)%nat; [reflexivity | exact I].
Qed.

Lemma decode_loop_continuous (fuel : nat) :
  forall (data tokenIn0 : string) (i : Z),
    first_discontinuity i (decode_loop fuel data tokenIn0) = None.
Proof.
  induction fuel as [| fuel IH]; intros data tokenIn0 i; [reflexivity |].
  cbn [decode_loop].
  destruct (46 <=? String.length data)%nat; [| reflexivity].
  set (tokenOut0 := ("0x" ++ slice_to 40 (slice_from 6 data))%string).
  set (data' := slice_from 40 (slice_from 6 data)).
  pose proof (decode_loop_head fuel data' tokenOut0) as Hh.
  pose proof (IH data' tokenOut0 (i + 1)) as Hrest.
  destruct (decode_loop fuel data' tokenOut0) as [| next rest'] eqn:E;
    [reflexivity |].
  cbn [first_discontinuity tokenOut]. rewrite Hh, String.eqb_refl.
  exact Hrest.
Qed.

Lemma decode_loop_linked (fuel : nat) :
  forall (data tokenIn0 : string), linked (decode_loop fuel data tokenIn0).
Proof.
  induction fuel as [| fuel IH]; intros data tokenIn0; [exact I |].
  cbn [decode_loop].
  destruct (46 <=? String.length data)%nat; [| exact I].
  set (tokenOut0 := ("0x" ++ slice_to 40 (slice_from 6 data))%string).
  set (data' := slice_from 40 (slice_from 6 data)).
  pose proof (decode_loop_head fuel data' tokenOut0) as Hh.
  pose proof (IH data' tokenOut0) as Hrest.
  destruct (decode_loop fuel data' tokenOut0) as [| next rest'] eqn:E;
    [exact I |].
  split; [symmetry; exact Hh | exact Hrest].
Qed.

Lemma decode_loop_length (fuel : nat) :
  forall (data tokenIn0 : string),
    (String.length data <= fuel)%nat ->
    List.length (decode_loop fuel data tokenIn0) = (String.length data / 46)%nat.
Proof.
  induction fuel as [| fuel IH]; intros data tokenIn0 Hfuel.
  - replace (String.length data) with 0%nat by lia. reflexivity.
  - cbn [decode_loop].
    destruct (Nat.leb_spec 46 (String.length data)) as [Hge | Hlt].
    + cbn [List.length]. rewrite IH by (rewrite !slice_from_length; lia).
      rewrite !slice_from_length.
      replace (String.length data)
        with ((String.length data - 6 - 40) + 1 * 46)%nat at 2 by lia.
      rewrite Nat.div_add by lia. lia.
    + rewrite Nat.div_small by lia. reflexivity.
Qed.

(** X18.  On any string [decodePath] returns [(length - 40) / 46] hops (the
    length being taken after the [0x] prefix); the [tokenIn] of each hop
    after the first is the very string that is the [tokenOut] of the hop
    before it, so the continuity check of [validatePath] finds nothing;
    with fewer than 86 characters the path is empty, which [validatePath]
    rejects. *)
Theorem decodePath_any_string (encodedPath : string) :
  let data :=
    if startsWith encodedPath "0x" then slice_from 2 encodedPath else encodedPath in
  List.length (decodePath encodedPath) = ((String.length data - 40) / 46)%nat
  /\ linked (decodePath encodedPath)
  /\ first_discontinuity 0 (decodePath encodedPath) = None
  /\ ((String.length data < 86)%nat ->
      decodePath encodedPath = []
      /\ TickUtils.error (validatePath (decodePath encodedPath))
         = Some "Path cannot be empty").
Proof.
  intros data. unfold decodePath. fold data.
  assert (Hlen : List.length
                   (decode_loop (String.length (slice_from 40 data))
                      (slice_from 40 data) ("0x" ++ slice_to 40 data))
                 = ((String.length data - 40) / 46)%nat).
  { rewrite decode_loop_length by lia. rewrite slice_from_length. reflexivity. }
  split; [exact Hlen |].
  split; [apply decode_loop_linked |].
  split; [apply decode_loop_continuous |].
  intros Hshort.
  assert (E : decode_loop (String.length (slice_from 40 data))
                (slice_from 40 data) ("0x" ++ slice_to 40 data) = []).
  { apply length_zero_iff_nil. rewrite Hlen. apply Nat.div_small. lia. }
  rewrite E. split; reflexivity.
Qed.

(** ** Building a path from tokens and fees *)

Lemma build_hops_spec (fees : list (option Z)) :
  forall (a : string) (tokens : list string) (i : Z),
    List.length tokens = List.length fees ->
    map tokenOut (build_hops (a :: tokens) fees) = tokens
    /\ map fee (build_hops (a :: tokens) fees) = fees
    /\ match build_hops (a :: tokens) fees with
       | [] => tokens = []
       | hop :: _ => tokenIn hop = a
       end
    /\ first_discontinuity i (build_hops (a :: tokens) fees) = None.
Proof.
  induction fees as [| f fees IH]; intros a tokens i Hlen.
  - destruct tokens; [| discriminate]. cbn. auto.
  - destruct tokens as [| b tokens]; [discriminate |].
    injection Hlen as Hlen.
    destruct (IH b tokens (i + 1) Hlen) as (Hout & Hfee & Hhead & Hcont).
    change (build_hops (a :: b :: tokens) (f :: fees))
      with ({| tokenIn := a; tokenOut := b; fee := f |}
              :: build_hops (b :: tokens) fees).
    cbn [map tokenOut fee tokenIn].
    rewrite Hout, Hfee.
    split; [reflexivity |]. split; [reflexivity |]. split; [reflexivity |].
    destruct (build_hops (b :: tokens) fees) as [| next rest] eqn:E;
      [reflexivity |].
    cbn [first_discontinuity tokenOut]. rewrite Hhead, String.eqb_refl.
    exact Hcont.
Qed.

(** X19.  [createMultiHopPath] throws for fewer than two tokens and for a
    number of fees other than the number of tokens minus one; otherwise
    [getPathTokens] of the path gives back the tokens, the fees of the hops
    are the given fees and the path has no discontinuity. *)
Theorem createMultiHopPath_tokens_round_trip
  (tokens : list string) (fees : list (option Z)) :
  ((List.length tokens < 2)%nat ->
   createMultiHopPath tokens fees
   = Throw (Error "Need at least 2 tokens for a path"))
  /\ ((2 <= List.length tokens)%nat ->
      List.length fees <> (List.length tokens - 1)%nat ->
      createMultiHopPath tokens fees
      = Throw (Error "Number of fees must equal number of tokens minus 1"))
  /\ ((2 <= List.length tokens)%nat ->
      List.length fees = (List.length tokens - 1)%nat ->
      exists path,
        createMultiHopPath tokens fees = Ok path
        /\ getPathTokens path = Some tokens
        /\ map fee path = fees
        /\ first_discontinuity 0 path = None).
Proof.
  unfold createMultiHopPath. split; [| split].
  - intros H. destruct (Nat.ltb_spec (List.length tokens) 2); [reflexivity | lia].
  - intros H Hne.
    destruct (Nat.ltb_spec (List.length tokens) 2); [lia |].
    destruct (Nat.eqb_spec (List.length fees) (List.length tokens - 1));
      [contradiction | reflexivity].
  - intros H Heq.
    destruct (Nat.ltb_spec (List.length tokens) 2); [lia |].
    destruct (Nat.eqb_spec (List.length fees) (List.length tokens - 1));
      [| contradiction].
    cbn [negb].
    destruct tokens as [| a tokens]; [cbn in H; lia |].
    assert (Hlen : List.length tokens = List.length fees) by (cbn in Heq; lia).
    destruct (build_hops_spec fees a tokens 0 Hlen) as (Hout & Hfee & Hhead & Hcont).
    eexists. split; [reflexivity |].
    split; [| split; assumption].
    destruct (build_hops (a :: tokens) fees) as [| hop rest] eqn:E.
    + subst tokens. cbn in H. lia.
    + cbn [getPathTokens]. rewrite Hhead, Hout. reflexivity.
Qed.

(** A path that [validatePath] accepts and whose tokens are 42-character
    [0x] addresses survives the round trip, in lower case. *)
Lemma validated_path_round_trip (path : list PathHop) :
  TickUtils.valid (validatePath path) = true ->
  Forall (fun hop => address_like (tokenIn hop) /\ address_like (tokenOut hop)) path ->
  exists encoded : string,
    encodePath path = Ok encoded
    /\ decodePath encoded = map lower_hop path.
Proof.
  intros Hvalid Haddr.
  destruct path as [| first rest]; [discriminate Hvalid |].
  unfold validatePath in Hvalid.
  destruct (first_discontinuity 0 (first :: rest)) as [e |] eqn:Ed;
    [discriminate Hvalid |].
  destruct (first_invalid_fee (first :: rest)) as [e |] eqn:Ef;
    [discriminate Hvalid |].
  apply first_discontinuity_chained in Ed.
  apply first_invalid_fee_none in Ef.
  assert (Hpath : Forall (fun hop => address_like (tokenOut hop)
                                     /\ fee_in_three_bytes hop) (first :: rest)).
  { rewrite Forall_forall in *. intros hop Hin. split; [apply Haddr; exact Hin |].
    destruct (Ef hop Hin) as [H | [H | [H | H]]]; eexists; split; try exact H; lia. }
  assert (Hfirst : address_like (tokenIn first)).
  { rewrite Forall_forall in Haddr. apply Haddr. left. reflexivity. }
  eexists. split; [apply encodePath_segments |].
  rewrite decodePath_segments by assumption.
  apply decoded_chained. exact Ed.
Qed.

Lemma decodePath_encodePath_round_trip_witness :
  exists encoded : string,
    encodePath [example_first_hop; example_second_hop] = Ok encoded
    /\ decodePath encoded = map lower_hop [example_first_hop; example_second_hop].
Proof.
  apply (decodePath_encodePath_round_trip example_first_hop [example_second_hop]).
  - split; reflexivity.
  - repeat constructor; try reflexivity.
    + exists 3000. split; [reflexivity | lia].
    + exists 100. split; [reflexivity | lia].
  - cbn. repeat split; reflexivity.
Defined.

Lemma encodePath_length_witness :
  exists encoded : string,
    encodePath [example_first_hop; example_second_hop] = Ok encoded
    /\ Z.of_nat (String.length encoded)
       = 2 + 2 * getPathLength [example_first_hop; example_second_hop].
Proof.
  apply (encodePath_length example_first_hop [example_second_hop]).
  - split; reflexivity.
  - repeat constructor; try reflexivity.
    + exists 3000. split; [reflexivity | lia].
    + exists 100. split; [reflexivity | lia].
Defined.

(** ** Slippage bounds *)

(** X11.  For a non-negative amount and a slippage of 0 to 10000 basis
    points, [getMinimumReceived] and [getMaximumSent] return
    [floor(amount * (10000 -/+ bps) / 10000)], which bracket the amount. *)
Theorem slippage_bounds_bracket_amount
  (amountString : string) (slippagePercent : Number.t) (amount bps : Z) :
  JSBI.BigInt amountString = Ok amount ->
  slippage_bps slippagePercent = Ok bps ->
  0 <= amount -> 0 <= bps <= 10000 ->
  exists minAmount maxAmount : Z,
    getMinimumReceived amountString slippagePercent = Ok (JSBI.toString minAmount)
    /\ getMaximumSent amountString slippagePercent = Ok (JSBI.toString maxAmount)
    /\ minAmount = amount * (10000 - bps) / 10000
    /\ maxAmount = amount * (10000 + bps) / 10000
    /\ 0 <= minAmount <= amount
    /\ amount <= maxAmount <= 2 * amount.
Proof.
  intros Ha Hb Hamt Hbps.
  exists (amount * (10000 - bps) / 10000), (amount * (10000 + bps) / 10000).
  assert (Hn1 : 0 <= amount * (10000 - bps)) by (apply Z.mul_nonneg_nonneg; lia).
  assert (Hn2 : 0 <= amount * (10000 + bps)) by (apply Z.mul_nonneg_nonneg; lia).
  split; [| split; [| split; [reflexivity | split; [reflexivity | split]]]].
  - unfold getMinimumReceived. rewrite Ha, Hb. cbn [bind].
    rewrite quot_nonneg_div by lia. reflexivity.
  - unfold getMaximumSent. rewrite Ha, Hb. cbn [bind].
    rewrite quot_nonneg_div by lia. reflexivity.
  - split; [apply Z.div_pos; lia |].
    apply Z.div_le_upper_bound; [lia |]. nia.
  - split.
    + apply Z.div_le_lower_bound; [lia |]. nia.
    + apply Z.div_le_upper_bound; [lia |]. nia.
Qed.

(** A slippage that is not a number, or an infinite one, makes both
    functions throw. *)
Lemma slippage_not_finite_throws (amountString : string) (amount : Z) (x : Number.t) :
  JSBI.BigInt amountString = Ok amount ->
  x = S754_nan \/ (exists s, x = S754_infinity s) ->
  getMinimumReceived amountString x = Throw RangeError
  /\ getMaximumSent amountString x = Throw RangeError.
Proof.
  intros Ha Hx. unfold getMinimumReceived, getMaximumSent. rewrite Ha. cbn [bind].
  destruct Hx as [-> | [s ->]]; [split; reflexivity |].
  destruct s; split; reflexivity.
Qed.

(** ** Time-weighted average price *)

Section TWAP.

Variable pow_approx : Number.t -> Number.t -> Number.t.

Lemma last_middle (oldest newest : Observation) (middle : list Observation) :
  List.last (oldest :: middle ++ [newest])%list no_observation = newest.
Proof.
  change (oldest :: middle ++ [newest])%list with ((oldest :: middle) ++ [newest])%list.
  apply last_last.
Qed.

(** X12.  [calculateTWAP] throws with fewer than two observations and with
    equal first and last timestamps; otherwise it returns the price of the
    tick [(newest - oldest cumulative) / (time difference)], truncated
    toward zero: only the first and the last observation are read, not the
    ones between nor [period]. *)
Theorem calculateTWAP_first_and_last
  (oldest newest : Observation) (middle : list Observation) (period : Z)
  (newestCumulative oldestCumulative : Z) :
  JSBI.BigInt (tickCumulative newest) = Ok newestCumulative ->
  JSBI.BigInt (tickCumulative oldest) = Ok oldestCumulative ->
  let observations := (oldest :: middle ++ [newest])%list in
  (forall few : list Observation,
     (List.length few < 2)%nat ->
     calculateTWAP pow_approx few period
     = Throw (Error "Need at least 2 observations to calculate TWAP"))
  /\ (timestamp newest <> timestamp oldest ->
   calculateTWAP pow_approx observations period
   = Ok (tickToPrice pow_approx
           (Z.quot (newestCumulative - oldestCumulative)
                   (timestamp newest - timestamp oldest))))
  /\ (timestamp newest = timestamp oldest ->
      calculateTWAP pow_approx observations period
      = Throw (Error "Time delta cannot be zero")).
Proof.
  intros Hn Ho observations. subst observations.
  split.
  { intros few Hfew. unfold calculateTWAP.
    destruct (Nat.ltb_spec (List.length few) 2); [reflexivity | lia]. }
  unfold calculateTWAP.
  replace (List.length (oldest :: middle ++ [newest])%list <? 2)%nat with false.
  2: { symmetry. apply Nat.ltb_ge. cbn [List.length]. rewrite length_app. cbn. lia. }
  rewrite last_middle. cbn [List.hd]. rewrite Hn, Ho. cbn [bind].
  split; intros Ht.
  - destruct (Z.eqb_spec (timestamp newest - timestamp oldest) 0) as [E | _];
      [lia | reflexivity].
  - rewrite Ht, Z.sub_diag. reflexivity.
Qed.

(** ** Price from the sqrt price *)

(** X13.  [calculatePrice] converts only the integer part of
    [sqrtPrice^2 / 2^192]; for a sqrt price below [2^96] in absolute value
    that part is zero, and with equal decimals the returned price is
    exactly 0. *)
Theorem calculatePrice_integer_part
  (sqrtPriceX96 : string) (decimals0 decimals1 P : Z) :
  JSBI.BigInt sqrtPriceX96 = Ok P ->
  calculatePrice pow_approx sqrtPriceX96 decimals0 decimals1
  = Ok (Number.mul (JSBI_toNumber (P * P / Q192))
          (Math_pow pow_approx (Number.of_Z 10)
             (Number.of_Z (decimals0 - decimals1))))
  /\ (- Q96 < P < Q96 -> P * P / Q192 = 0)
  /\ (- Q96 < P < Q96 -> decimals0 = decimals1 ->
      calculatePrice pow_approx sqrtPriceX96 decimals0 decimals1
      = Ok (S754_zero false)).
Proof.
  intros HP.
  assert (HQ : Q96 * Q96 = Q192) by reflexivity.
  assert (Hpos : 0 < Q192) by reflexivity.
  assert (Hsq : 0 <= P * P) by nia.
  assert (E : calculatePrice pow_approx sqrtPriceX96 decimals0 decimals1
              = Ok (Number.mul (JSBI_toNumber (P * P / Q192))
                      (Math_pow pow_approx (Number.of_Z 10)
                         (Number.of_Z (decimals0 - decimals1))))).
  { unfold calculatePrice. rewrite HP. cbn [bind]. unfold JSBI.multiply.
    rewrite HQ, divide_nonzero by lia. cbn [bind].
    rewrite quot_nonneg_div by lia. reflexivity. }
  assert (Hsmall : - Q96 < P < Q96 -> P * P / Q192 = 0).
  { intros Hr. apply Z.div_small. split; [exact Hsq |].
    rewrite <- HQ. pose proof Q96_pos. nia. }
  split; [exact E |]. split; [exact Hsmall |].
  intros Hr ->. rewrite E, (Hsmall Hr), Z.sub_diag. reflexivity.
Qed.

End TWAP.

(** ** Token ordering *)

Lemma ltb_irrefl (a : string) : String.ltb a a = false.
Proof.
  unfold String.ltb.
  pose proof (String.compare_antisym a a) as H.
  destruct (String.compare a a); try reflexivity; discriminate.
Qed.

Lemma ltb_asym (a b : string) : String.ltb a b = true -> String.ltb b a = false.
Proof.
  unfold String.ltb. rewrite (String.compare_antisym b a).
  destruct (String.compare a b); cbn; congruence.
Qed.

Lemma ltb_total (a b : string) :
  a <> b -> String.ltb a b = false -> String.ltb b a = true.
Proof.
  unfold String.ltb. intros Hne. rewrite (String.compare_antisym b a).
  destruct (String.compare a b) eqn:E; cbn; try congruence.
  apply String.compare_eq_iff in E. contradiction.
Qed.

(** X14.  [sortTokens] never returns a pair in descending order.  For
    tokens that differ ignoring case the result is ascending, independent
    of the argument order and stable under sorting again; for tokens equal
    ignoring case the arguments are swapped, so sorting twice gives back
    the original order. *)
Theorem sortTokens_order (tokenA tokenB : string) :
  let sorted := sortTokens tokenA tokenB in
  isSorted (snd sorted) (fst sorted) = false
  /\ (toLowerCase tokenA <> toLowerCase tokenB ->
      isSorted (fst sorted) (snd sorted) = true
      /\ sortTokens tokenB tokenA = sorted
      /\ sortTokens (fst sorted) (snd sorted) = sorted)
  /\ (toLowerCase tokenA = toLowerCase tokenB ->
      sorted = (tokenB, tokenA)
      /\ isSorted (fst sorted) (snd sorted) = false
      /\ sortTokens (fst sorted) (snd sorted) = (tokenA, tokenB)).
Proof.
  unfold sortTokens, isSorted, lessThan. cbv zeta.
  destruct (String.ltb (toLowerCase tokenA) (toLowerCase tokenB)) eqn:E.
  - pose proof (ltb_asym _ _ E) as E'.
    split; [exact E' |]. split.
    + intros _. cbn [fst snd]. rewrite E, E'. auto.
    + intros Heq. rewrite Heq, ltb_irrefl in E. discriminate.
  - split; [exact E |]. split.
    + intros Hne. pose proof (ltb_total _ _ Hne E) as E'.
      cbn [fst snd]. rewrite E'. auto.
    + intros Heq. cbn [fst snd]. rewrite Heq, ltb_irrefl. auto.
Qed.

(** ** Batch permits *)

Import Permit2Utils.

Lemma batch_details_nth (tokens : list (string * string)) (exp nonce0 : Z) :
  forall (i : Z) (k : nat) (tk amt : string),
    nth_error tokens k = Some (tk, amt) ->
    nth_error (batch_details tokens exp nonce0 i) k
    = Some {| token := tk; amount := amt; expiration := exp;
              nonce := nonce0 + i + Z.of_nat k |}.
Proof.
  induction tokens as [| [tk0 amt0] rest IH]; intros i k tk amt Hk.
  - destruct k; discriminate.
  - destruct k as [| k]; cbn in *.
    + injection Hk as -> ->. rewrite Z.add_0_r. reflexivity.
    + rewrite (IH (i + 1) k tk amt Hk). do 2 f_equal. lia.
Qed.

Lemma batch_details_length (tokens : list (string * string)) (exp nonce0 i : Z) :
  List.length (batch_details tokens exp nonce0 i) = List.length tokens.
Proof.
  revert i. induction tokens as [| [tk amt] rest IH]; intros i; cbn;
    [reflexivity | rewrite IH; reflexivity].
Qed.

(** X20.  [createPermitBatch] returns one entry per token, in order, with
    the token and amount unchanged, nonces [nonce, nonce + 1, ...] and one
    common expiration: the given one, or thirty days from now when it is
    absent or zero. *)
Theorem createPermitBatch_details
  (now : Z) (tokens : list (string * string)) (spender : string)
  (nonce0 deadline : Z) (exp : option Z) :
  let batch := createPermitBatch now tokens spender nonce0 deadline exp in
  let expiry :=
    match exp with
    | Some e => if e =? 0 then now / 1000 + 2592000 else e
    | None => now / 1000 + 2592000
    end in
  List.length (details batch) = List.length tokens
  /\ (forall (k : nat) (tk amt : string),
        nth_error tokens k = Some (tk, amt) ->
        nth_error (details batch) k
        = Some {| token := tk; amount := amt; expiration := expiry;
                  nonce := nonce0 + Z.of_nat k |}).
Proof.
  intros batch expiry. subst batch expiry. unfold createPermitBatch. cbn [details].
  split; [apply batch_details_length |].
  intros k tk amt Hk.
  rewrite (batch_details_nth tokens _ nonce0 0 k tk amt Hk).
  rewrite Z.add_0_r. reflexivity.
Qed.

Lemma slippage_bounds_bracket_amount_witness :
  exists minAmount maxAmount : Z,
    getMinimumReceived "1000000" (S754_finite false 4503599627370496 (-53))
    = Ok (JSBI.toString minAmount)
    /\ getMaximumSent "1000000" (S754_finite false 4503599627370496 (-53))
       = Ok (JSBI.toString maxAmount)
    /\ minAmount = 1000000 * (10000 - 50) / 10000
    /\ maxAmount = 1000000 * (10000 + 50) / 10000
    /\ 0 <= minAmount <= 1000000
    /\ 1000000 <= maxAmount <= 2 * 1000000.
Proof.
  apply (slippage_bounds_bracket_amount
           "1000000" (S754_finite false 4503599627370496 (-53)) 1000000 50);
    try reflexivity; lia.
Defined.

(** The basis points are the floor of the binary64 product: 0.29 percent
    counts as 28 basis points, since [0.29 * 100] is [28.999999999999996]. *)
Lemma slippage_bps_rounds_down :
  slippage_bps (S754_finite false 5224175567749775 (-54)) = Ok 28
  /\ Number.toString (S754_finite false 5224175567749775 (-54)) = "0.29".
Proof. split; vm_compute; reflexivity. Qed.

Lemma calculateTWAP_first_and_last_witness :
  calculateTWAP pow_repeated
    [ {| tickCumulative := "100"; timestamp := 10 |};
      {| tickCumulative := "5"; timestamp := 11 |};
      {| tickCumulative := "93"; timestamp := 12 |} ] 3600
  = Ok (tickToPrice pow_repeated (-3)).
Proof.
  destruct (calculateTWAP_first_and_last pow_repeated
              {| tickCumulative := "100"; timestamp := 10 |}
              {| tickCumulative := "93"; timestamp := 12 |}
              [ {| tickCumulative := "5"; timestamp := 11 |} ] 3600
              93 100 eq_refl eq_refl) as (_ & Hok & _).
  apply Hok. cbn. lia.
Defined.

Lemma calculatePrice_integer_part_witness :
  calculatePrice pow_repeated "79228162514264337593543950335" 18 18
  = Ok (S754_zero false).
Proof.
  destruct (calculatePrice_integer_part pow_repeated
              "79228162514264337593543950335" 18 18
              79228162514264337593543950335 eq_refl) as (_ & _ & Hzero).
  apply Hzero; [vm_compute; split; reflexivity | reflexivity].
Defined.

(** ** Paths for exact-output swaps *)

Lemma last_cons_default {A : Type} (l : list A) (a d : A) :
  last (a :: l) d = last l a.
Proof.
  revert a d. induction l as [| b l IH]; intros a d; [reflexivity |].
  change (last (a :: b :: l) d) with (last (b :: l) d).
  rewrite (IH b d). symmetry. apply IH.
Qed.

Lemma chained_snoc (previous : string) (path : list PathHop) (hop : PathHop) :
  chained previous (path ++ [hop])%list
  <-> chained previous path
      /\ toLowerCase (last (map tokenOut path) previous) = toLowerCase (tokenIn hop).
Proof.
  revert previous. induction path as [| a path IH]; intros previous.
  - cbn. tauto.
  - change (chained previous ((a :: path) ++ [hop])%list)
      with (toLowerCase previous = toLowerCase (tokenIn a)
            /\ chained (tokenOut a) (path ++ [hop])%list).
    change (chained previous (a :: path))
      with (toLowerCase previous = toLowerCase (tokenIn a)
            /\ chained (tokenOut a) path).
    change (map tokenOut (a :: path)) with (tokenOut a :: map tokenOut path).
    rewrite last_cons_default, IH. tauto.
Qed.

(** Reversing a chained path and swapping the tokens of each hop gives a
    chained path. *)
Lemma chained_reversed (path : list PathHop) :
  forall previous start : string,
    chained previous path ->
    toLowerCase start = toLowerCase (last (map tokenOut path) previous) ->
    chained start
      (map (fun hop => {| tokenIn := tokenOut hop;
                          tokenOut := tokenIn hop;
                          fee := fee hop |})
           (List.rev path)).
Proof.
  induction path as [| a path IH]; intros previous start Hc Hs; [exact I |].
  destruct Hc as [_ Hc].
  cbn [List.rev]. rewrite map_app. cbn [map].
  change (map tokenOut (a :: path)) with (tokenOut a :: map tokenOut path) in Hs.
  rewrite last_cons_default in Hs.
  apply chained_snoc. split; [exact (IH _ _ Hc Hs) |].
  cbn [tokenIn]. rewrite map_map. cbn [tokenOut].
  rewrite map_rev.
  destruct path as [| b path]; [exact Hs |].
  destruct Hc as [Hab _].
  cbn [map List.rev]. rewrite last_last. symmetry. exact Hab.
Qed.

(** X21.  For a path whose tokens are all 42-character [0x] strings, with
    fees from 0 to [16^6 - 1] and each hop starting (ignoring case) where
    the previous one ended, decoding the exact-output encoding gives the
    hops in reverse order, each with its two tokens exchanged and in lower
    case. *)
Theorem decodePath_encodePathExactOutput (first : PathHop) (rest : list PathHop) :
  Forall (fun hop => address_like (tokenIn hop) /\ address_like (tokenOut hop)
                     /\ fee_in_three_bytes hop)
         (first :: rest) ->
  chained (tokenIn first) (first :: rest) ->
  exists encoded : string,
    encodePathExactOutput (first :: rest) = Ok encoded
    /\ decodePath encoded
       = map (fun hop => {| tokenIn := toLowerCase (tokenOut hop);
                            tokenOut := toLowerCase (tokenIn hop);
                            fee := fee hop |})
             (List.rev (first :: rest)).
Proof.
  intros Hpath Hc.
  pose proof (chained_reversed _ _ _ Hc eq_refl) as Hr.
  assert (Hq : Forall (fun hop => address_like (tokenIn hop)
                                  /\ address_like (tokenOut hop)
                                  /\ fee_in_three_bytes hop)
                 (map (fun hop => {| tokenIn := tokenOut hop;
                                     tokenOut := tokenIn hop;
                                     fee := fee hop |})
                      (List.rev (first :: rest)))).
  { apply Forall_map, Forall_rev. revert Hpath. apply Forall_impl.
    intros hop (Hi & Ho & f & Hf & Hrange). cbn.
    split; [exact Ho |]. split; [exact Hi |]. exists f. split; assumption. }
  unfold encodePathExactOutput. cbv zeta.
  assert (Hmap : forall l : list PathHop,
            map (fun hop => {| tokenIn := toLowerCase (tokenOut hop);
                               tokenOut := toLowerCase (tokenIn hop);
                               fee := fee hop |}) l
            = map lower_hop
                (map (fun hop => {| tokenIn := tokenOut hop;
                                    tokenOut := tokenIn hop;
                                    fee := fee hop |}) l)).
  { intros l. rewrite map_map. reflexivity. }
  rewrite Hmap.
  destruct (map _ (List.rev (first :: rest))) as [| first' rest'] eqn:Eq.
  - apply (f_equal (@List.length PathHop)) in Eq.
    rewrite length_map, length_rev in Eq. discriminate Eq.
  - destruct Hr as [_ Hr].
    pose proof (Forall_inv Hq) as (Hfirst & _).
    assert (Hout : Forall (fun hop => address_like (tokenOut hop)
                                      /\ fee_in_three_bytes hop)
                     (first' :: rest')).
    { revert Hq. apply Forall_impl. intros hop (_ & H); exact H. }
    eexists. split; [apply encodePath_segments |].
    rewrite decodePath_segments by assumption.
    apply decoded_chained. split; [reflexivity | exact Hr].
Qed.

Lemma decodePath_encodePathExactOutput_witness :
  exists encoded : string,
    encodePathExactOutput [example_first_hop; example_second_hop] = Ok encoded
    /\ decodePath encoded
       = [ {| tokenIn := "0x6b175474e89094c44da98b954eedeac495271d0f";
              tokenOut := "0xa0b86991c6218b36c1d19d4a2e9eb0ce3606eb48";
              fee := Some 100 |};
           {| tokenIn := "0xa0b86991c6218b36c1d19d4a2e9eb0ce3606eb48";
              tokenOut := "0xc02aaa39b223fe8d0a0e5c4f27ead9083c756cc2";
              fee := Some 3000 |} ].
Proof.
  assert (Hfirst : address_like (tokenIn example_first_hop)
                   /\ address_like (tokenOut example_first_hop)
                   /\ fee_in_three_bytes example_first_hop).
  { split; [split; reflexivity |]. split; [split; reflexivity |].
    exists 3000. split; [reflexivity | lia]. }
  assert (Hsecond : address_like (tokenIn example_second_hop)
                    /\ address_like (tokenOut example_second_hop)
                    /\ fee_in_three_bytes example_second_hop).
  { split; [split; reflexivity |]. split; [split; reflexivity |].
    exists 100. split; [reflexivity | lia]. }
  assert (Hc : chained (tokenIn example_first_hop)
                 [example_first_hop; example_second_hop]).
  { split; [reflexivity |]. split; [vm_compute; reflexivity | exact I]. }
  exact (decodePath_encodePathExactOutput example_first_hop [example_second_hop]
           (Forall_cons _ Hfirst (Forall_cons _ Hsecond (Forall_nil _))) Hc).
Defined.

(** ** The properties on concrete inputs *)

Lemma getFullRangeTicks_by_tier_witness :
  getFullRangeTicks 7 = Throw (Error "Invalid fee tier: 7")
  /\ getFullRangeTicks 500 = Ok {| tickLower := -887270; tickUpper := 887270 |}
  /\ valid (validateTicks (-887270) 887270 10) = true.
Proof.
  destruct (getFullRangeTicks_by_tier 7) as [H7 _].
  destruct (getFullRangeTicks_by_tier 500) as [_ H500].
  split; [exact (H7 eq_refl) |]. split; [reflexivity |].
  destruct (H500 {| tickLower := -887270; tickUpper := 887270 |} 10 eq_refl eq_refl)
    as (_ & _ & _ & H).
  apply H. discriminate.
Defined.

Lemma fee_tier_tables_agree_witness :
  (exists spacing, getTickSpacing 3000 = Ok spacing)
  /\ getTickSpacing 250 = Throw (Error "Invalid fee tier: 250").
Proof.
  destruct fee_tier_tables_agree as (H1 & H2 & _).
  split; [apply H1; reflexivity | exact (H2 250 eq_refl)].
Defined.

Lemma sortTokens_order_witness :
  sortTokens "0xa0b86991c6218b36c1d19d4a2e9eb0ce3606eb48"
             "0xC02aaA39b223FE8D0A0e5C4F27eAD9083C756Cc2"
  = sortTokens "0xC02aaA39b223FE8D0A0e5C4F27eAD9083C756Cc2"
               "0xa0b86991c6218b36c1d19d4a2e9eb0ce3606eb48"
  /\ sortTokens "0xC02AAA39b223FE8D0A0e5C4F27eAD9083C756Cc2"
                "0xc02aaa39b223FE8D0A0e5C4F27eAD9083C756Cc2"
     = ("0xc02aaa39b223FE8D0A0e5C4F27eAD9083C756Cc2",
        "0xC02AAA39b223FE8D0A0e5C4F27eAD9083C756Cc2").
Proof.
  destruct (sortTokens_order "0xC02aaA39b223FE8D0A0e5C4F27eAD9083C756Cc2"
                             "0xa0b86991c6218b36c1d19d4a2e9eb0ce3606eb48")
    as (_ & Hdiffer & _).
  destruct (sortTokens_order "0xC02AAA39b223FE8D0A0e5C4F27eAD9083C756Cc2"
                             "0xc02aaa39b223FE8D0A0e5C4F27eAD9083C756Cc2")
    as (_ & _ & Hsame).
  split.
  - destruct Hdiffer as (_ & H & _); [vm_compute; discriminate | exact H].
  - destruct Hsame as (H & _); [vm_compute; reflexivity | exact H].
Defined.

Lemma validatePath_accepts_iff_witness :
  TickUtils.valid (validatePath [example_first_hop; example_second_hop]) = true.
Proof.
  destruct (validatePath_accepts_iff [example_first_hop; example_second_hop])
    as ((_ & Haccept) & _).
  apply Haccept.
  exists example_first_hop, [example_second_hop].
  split; [reflexivity |]. split.
  - simpl. split; [reflexivity |]. split; [vm_compute; reflexivity | exact I].
  - apply Forall_cons; [right; right; left; reflexivity |].
    apply Forall_cons; [left; reflexivity | apply Forall_nil].
Defined.

Lemma decodePath_any_string_witness :
  decodePath "0xa0b86991c6218b36c1d19d4a2e9eb0ce3606eb48" = []
  /\ TickUtils.error
       (validatePath (decodePath "0xa0b86991c6218b36c1d19d4a2e9eb0ce3606eb48"))
     = Some "Path cannot be empty".
Proof.
  destruct (decodePath_any_string "0xa0b86991c6218b36c1d19d4a2e9eb0ce3606eb48")
    as (_ & _ & _ & H).
  apply H. vm_compute. lia.
Defined.

Lemma createMultiHopPath_tokens_round_trip_witness :
  exists path,
    createMultiHopPath
      ["0xC02aaA39b223FE8D0A0e5C4F27eAD9083C756Cc2";
       "0xA0b86991c6218b36c1d19D4a2e9Eb0cE3606eB48";
       "0x6B175474E89094C44Da98b954EedeAC495271d0F"]
      [Some 3000; Some 100] = Ok path
    /\ getPathTokens path
       = Some ["0xC02aaA39b223FE8D0A0e5C4F27eAD9083C756Cc2";
               "0xA0b86991c6218b36c1d19D4a2e9Eb0cE3606eB48";
               "0x6B175474E89094C44Da98b954EedeAC495271d0F"].
Proof.
  destruct (createMultiHopPath_tokens_round_trip
              ["0xC02aaA39b223FE8D0A0e5C4F27eAD9083C756Cc2";
               "0xA0b86991c6218b36c1d19D4a2e9Eb0cE3606eB48";
               "0x6B175474E89094C44Da98b954EedeAC495271d0F"]
              [Some 3000; Some 100]) as (_ & _ & H).
  destruct H as (path & Hpath & Htokens & _); [simpl; lia | reflexivity |].
  exists path. split; assumption.
Defined.

Lemma createPermitBatch_details_witness :
  nth_error
    (details
       (createPermitBatch 1700000000999
          [("0xC02aaA39b223FE8D0A0e5C4F27eAD9083C756Cc2", "1000");
           ("0xA0b86991c6218b36c1d19D4a2e9Eb0cE3606eB48", "2000")]
          "0x3fC91A3afd70395Cd496C647d5a6CC9D4B2b7FAD" 7 1700003600 None))
    1
  = Some {| token := "0xA0b86991c6218b36c1d19D4a2e9Eb0cE3606eB48";
            amount := "2000";
            expiration := 1702592000;
            nonce := 8 |}.
Proof.
  destruct (createPermitBatch_details 1700000000999
              [("0xC02aaA39b223FE8D0A0e5C4F27eAD9083C756Cc2", "1000");
               ("0xA0b86991c6218b36c1d19D4a2e9Eb0cE3606eB48", "2000")]
              "0x3fC91A3afd70395Cd496C647d5a6CC9D4B2b7FAD" 7 1700003600 None)
    as (_ & H).
  exact (H 1%nat _ _ eq_refl).
Defined.
